(** * Model inference from JSON examples: src/generateModel.js and index.js

    A shallow embedding of [inferDataType], [generateSequelizeModel] and of
    the part of the driver script that assembles the association table,
    followed by the properties of the inference engine. *)

From Stdlib Require Import List String Ascii Bool Arith NArith ZArith Lia.
From Stdlib Require Import Floats.SpecFloat.
From Stdlib Require Import Permutation.
From Stdlib Require Decimal.
Import ListNotations.

Set Implicit Arguments.
Set Warnings "-register-all".
Local Open Scope list_scope.

(** ** JavaScript strings

    A JavaScript string is a finite sequence of UTF-16 code units; [length]
    counts code units. *)

Definition code_unit := N.
Definition jsstring := list code_unit.

Fixpoint js (s : string) : jsstring :=
  match s with
  | EmptyString => []
  | String a rest => N_of_ascii a :: js rest
  end.

Fixpoint eqb_js (s t : jsstring) : bool :=
  match s, t with
  | [], [] => true
  | a :: s', b :: t' => N.eqb a b && eqb_js s' t'
  | _, _ => false
  end.

(** [Array.prototype.includes] on an array of strings, with an argument that
    may be [undefined] ([None]). *)
Definition includes (l : list jsstring) (x : option jsstring) : bool :=
  match x with
  | Some s => existsb (eqb_js s) l
  | None => false
  end.

(** Decimal numerals, as [String(n)] prints a non-negative integer. *)
Fixpoint uint_units (d : Decimal.uint) : jsstring :=
  match d with
  | Decimal.Nil => []
  | Decimal.D0 d => 48%N :: uint_units d
  | Decimal.D1 d => 49%N :: uint_units d
  | Decimal.D2 d => 50%N :: uint_units d
  | Decimal.D3 d => 51%N :: uint_units d
  | Decimal.D4 d => 52%N :: uint_units d
  | Decimal.D5 d => 53%N :: uint_units d
  | Decimal.D6 d => 54%N :: uint_units d
  | Decimal.D7 d => 55%N :: uint_units d
  | Decimal.D8 d => 56%N :: uint_units d
  | Decimal.D9 d => 57%N :: uint_units d
  end.

Definition decimal (n : N) : jsstring := uint_units (N.to_uint n).

Definition is_digit (c : code_unit) : bool := (48 <=? c)%N && (c <=? 57)%N.

(** The value of a run of decimal digits, most significant first. *)
Definition digits_value (ds : jsstring) : N :=
  fold_left (fun acc c => (10 * acc + (c - 48))%N) ds 0%N.

(** ** JavaScript values

    Numbers are IEEE 754 binary64 values. An object carries its own
    enumerable string-keyed properties in creation order. *)

Inductive value : Type :=
| VUndefined
| VNull
| VBool (b : bool)
| VNumber (n : spec_float)
| VString (s : jsstring)
| VArray (elems : list value)
| VObject (props : list (jsstring * value)).

(** [typeof v] is the string object. *)
Definition typeof_object (v : value) : bool :=
  match v with
  | VNull | VArray _ | VObject _ => true
  | _ => false
  end.

(** ToBoolean *)
Definition truthy (v : value) : bool :=
  match v with
  | VUndefined | VNull => false
  | VBool b => b
  | VNumber (S754_zero _) | VNumber S754_nan => false
  | VNumber _ => true
  | VString s => negb (eqb_js s [])
  | VArray _ | VObject _ => true
  end.

(** [value[0]] on an array: [undefined] when the array is empty. *)
Definition first_element (elems : list value) : value :=
  match elems with
  | [] => VUndefined
  | v :: _ => v
  end.

(** ** Exceptions *)

Inductive exn : Type := TypeError | RangeError.

Inductive result (A : Type) : Type :=
| Ok (a : A)
| Throw (e : exn).
Arguments Ok {A} a.
Arguments Throw {A} e.

(** The outcome of a recursive job, whose model bounds the depth of the
    nested calls. *)
Inductive outcome (A : Type) : Type :=
| Done (a : A)
| Raised (e : exn)
| OutOfFuel.
Arguments Done {A} a.
Arguments Raised {A} e.
Arguments OutOfFuel {A}.

Definition bind {A B} (r : result A) (k : A -> result B) : result B :=
  match r with
  | Ok a => k a
  | Throw e => Throw e
  end.

Notation "x <- c ;; k" := (bind c (fun x => k))
  (at level 61, c at next level, right associativity).
Notation "' pat <- c ;; k" := (bind c (fun x => match x with pat => k end))
  (at level 61, pat pattern, c at next level, right associativity).

(** ** [parseInt(s, 10)]

    [None] stands for [NaN]; otherwise the mathematical value of the longest
    digit prefix that follows the leading white space and the optional
    sign. *)

Definition is_white_space (c : code_unit) : bool :=
  existsb (N.eqb c)
    [9; 10; 11; 12; 13; 32; 160; 5760; 8192; 8193; 8194; 8195; 8196; 8197;
     8198; 8199; 8200; 8201; 8202; 8232; 8233; 8239; 8287; 12288; 65279]%N.

Fixpoint drop_while (p : code_unit -> bool) (s : jsstring) : jsstring :=
  match s with
  | [] => []
  | c :: rest => if p c then drop_while p rest else s
  end.

Fixpoint take_while (p : code_unit -> bool) (s : jsstring) : jsstring :=
  match s with
  | [] => []
  | c :: rest => if p c then c :: take_while p rest else []
  end.

Definition parseInt10 (s : jsstring) : option Z :=
  let trimmed := drop_while is_white_space s in
  let '(sign, rest) :=
    match trimmed with
    | 45%N :: r => ((-1)%Z, r)
    | 43%N :: r => (1%Z, r)
    | _ => (1%Z, trimmed)
    end in
  match take_while is_digit rest with
  | [] => None
  | ds => Some (sign * Z.of_N (digits_value ds))%Z
  end.

(** [isNaN(parseInt(s, 10))] *)
Definition parseInt_isNaN (s : jsstring) : bool :=
  match parseInt10 s with
  | None => true
  | Some _ => false
  end.

(** ** The host

    What the engine and the helper module [./utilities] contribute:
    [isInt] and [toCamelCase] are the helpers the source imports;
    [dateParses s] is [!isNaN(new Date(s).getTime())], whose accepted
    formats beyond ISO 8601 depend on the engine; [objectProto k] says that
    [k] names a property found on [Object.prototype], and [arrayProto k] that
    [k] resolves on the prototype chain of an array. *)

Class Host : Type := {
  isInt : spec_float -> bool;
  toCamelCase : jsstring -> jsstring;
  dateParses : jsstring -> bool;
  objectProto : jsstring -> bool;
  arrayProto : jsstring -> bool
}.

(** ** Type tags *)

Definition quote : jsstring := [34%N].

Definition DataTypes_BOOLEAN : jsstring := js "DataTypes.BOOLEAN".
Definition DataTypes_INTEGER : jsstring := js "DataTypes.INTEGER".
Definition DataTypes_FLOAT : jsstring := js "DataTypes.FLOAT".
Definition DataTypes_DATE : jsstring := js "DataTypes.DATE".
Definition DataTypes_STRING : jsstring := js "DataTypes.STRING".
Definition DataTypes_STRING_MAX : jsstring := js "DataTypes.STRING('MAX')".
Definition DataTypes_NESTED : jsstring := js "DataTypes.NESTED".
Definition unknown_type : jsstring := js "???".

(** The only entry of [specialTypes] is written with double quotes around
    MAX (code unit 34), where the classifier writes single quotes. *)
Definition specialTypes : list jsstring :=
  [js "DataTypes.STRING(" ++ quote ++ js "MAX" ++ quote ++ js ")"].

(** ** Property tables

    The own string-keyed properties of an object, in creation order. *)

Fixpoint assoc {A} (k : jsstring) (l : list (jsstring * A)) : option A :=
  match l with
  | [] => None
  | (k', a) :: rest => if eqb_js k k' then Some a else assoc k rest
  end.

(** Assignment to an own property: an existing property keeps its place, a
    new one goes last. *)
Fixpoint assoc_set {A} (k : jsstring) (a : A) (l : list (jsstring * A))
  : list (jsstring * A) :=
  match l with
  | [] => [(k, a)]
  | (k', a') :: rest =>
      if eqb_js k k' then (k', a) :: rest else (k', a') :: assoc_set k a rest
  end.

(** [delete o[k]] *)
Fixpoint assoc_remove {A} (k : jsstring) (l : list (jsstring * A))
  : list (jsstring * A) :=
  match l with
  | [] => []
  | (k', a') :: rest =>
      if eqb_js k k' then assoc_remove k rest else (k', a') :: assoc_remove k rest
  end.

(** An array index is the canonical numeral of an integer below 2^32 - 1. *)
Definition array_index (k : jsstring) : option N :=
  let n := digits_value k in
  if eqb_js (decimal n) k && (n <? 4294967295)%N then Some n else None.

Fixpoint insert_by_index {A} (n : N) (p : jsstring * A)
  (l : list (N * (jsstring * A))) : list (N * (jsstring * A)) :=
  match l with
  | [] => [(n, p)]
  | (m, q) :: rest =>
      if (n <? m)%N then (n, p) :: l else (m, q) :: insert_by_index n p rest
  end.

Definition index_part {A} (props : list (jsstring * A))
  : list (N * (jsstring * A)) :=
  fold_left
    (fun acc p =>
       match array_index (fst p) with
       | Some n => insert_by_index n p acc
       | None => acc
       end) props [].

Definition string_part {A} (props : list (jsstring * A))
  : list (jsstring * A) :=
  filter (fun p => match array_index (fst p) with
                   | Some _ => false
                   | None => true
                   end) props.

(** The order in which [Object.entries], [Object.keys] and [Object.values]
    visit own properties: array indices ascending, then the other keys in
    creation order. *)
Definition ownProperties {A} (props : list (jsstring * A))
  : list (jsstring * A) :=
  map snd (index_part props) ++ string_part props.

Fixpoint entries_from {A} (i : N) (l : list A) : list (jsstring * A) :=
  match l with
  | [] => []
  | x :: rest => (decimal i, x) :: entries_from (N.succ i) rest
  end.

(** [Object.entries(v)] for an arbitrary value: it throws on [null] and
    [undefined], boxes the other primitives, and lists the code units of a
    string and the elements of an array under their indices. *)
Definition Object_entries (v : value) : result (list (jsstring * value)) :=
  match v with
  | VUndefined | VNull => Throw TypeError
  | VBool _ | VNumber _ => Ok []
  | VString s => Ok (entries_from 0 (map (fun c => VString [c]) s))
  | VArray elems => Ok (entries_from 0 elems)
  | VObject props => Ok (ownProperties props)
  end.

(** ** Objects created by the program *)

(** An entry of [body]; [type] is [None] when the property holds
    [undefined]. *)
Record field_desc : Type := { type : option jsstring; field : jsstring }.

(** An entry of [associatedModels]. *)
Record associatedModel : Type := {
  name : jsstring;
  relation : jsstring;
  examples : list value
}.

(** An object literal used as a table: its own properties, and the object
    that an assignment to [__proto__] has installed as its prototype, if
    any (the chain then continues to [Object.prototype]). *)
Record object (A : Type) : Type := {
  own : list (jsstring * A);
  proto : option A
}.

Definition empty_object {A} : object A := {| own := []; proto := None |}.

Definition proto_key : jsstring := js "__proto__".

Section Engine.
Context {host : Host}.

(** [o[k] = a] on an ordinary object whose own properties were all created
    by such assignments. When [k] is [__proto__] and [Object.prototype]
    carries that accessor, the setter replaces the prototype of [o] and no
    own property appears. *)
Definition objSet {A} (o : object A) (k : jsstring) (a : A) : object A :=
  match assoc k (own o) with
  | Some _ => {| own := assoc_set k a (own o); proto := proto o |}
  | None =>
      if eqb_js k proto_key && objectProto k
      then {| own := own o; proto := Some a |}
      else {| own := own o ++ [(k, a)]; proto := proto o |}
  end.

(** What [body[k]] evaluates to. *)
Inductive property : Type :=
| PUndefined
| PDesc (d : field_desc)
| PString (s : jsstring)
| PBuiltin.

Definition bodyGet (body : object field_desc) (k : jsstring) : property :=
  match assoc k (own body) with
  | Some d => PDesc d
  | None =>
      match proto body with
      | Some p =>
          if eqb_js k (js "type") then
            match type p with
            | Some t => PString t
            | None => PUndefined
            end
          else if eqb_js k (js "field") then PString (field p)
          else if eqb_js k proto_key then PDesc p
          else if objectProto k then PBuiltin
          else PUndefined
      | None => if objectProto k then PBuiltin else PUndefined
      end
  end.

Definition property_truthy (p : property) : bool :=
  match p with
  | PUndefined => false
  | PDesc _ => true
  | PString s => negb (eqb_js s [])
  | PBuiltin => true
  end.

(** [p.type] for a truthy [p]: strings, functions and [Object.prototype]
    have no such property. *)
Definition property_type (p : property) : option jsstring :=
  match p with
  | PDesc d => type d
  | _ => None
  end.

(** [associatedModels] is an array used as a table. [length] is the own
    length of the array: one more than its greatest index. *)
Definition array_length (am : list (jsstring * associatedModel)) : N :=
  fold_left
    (fun acc p =>
       match array_index (fst p) with
       | Some n => N.max acc (n + 1)
       | None => acc
       end) am 0%N.

Inductive slot : Type :=
| SUndefined
| SModel (m : associatedModel)
| SLength (n : N)
| SBuiltin.

Definition amGet (am : list (jsstring * associatedModel)) (k : jsstring) : slot :=
  match assoc k am with
  | Some m => SModel m
  | None =>
      if eqb_js k (js "length") then SLength (array_length am)
      else if arrayProto k then SBuiltin
      else SUndefined
  end.

(** The two statements shared by both association branches:
    create the entry when [associatedModels[camelCasedKey]] is falsy, then
    push onto its [examples]. A zero [length] is falsy and assigning an
    object to it is a RangeError; a builtin or a non-zero [length] is truthy
    and has no [examples] to push onto. *)
Definition register (rel : jsstring) (pushed : list value)
  (camelCasedKey : jsstring) (am : list (jsstring * associatedModel))
  : result (list (jsstring * associatedModel)) :=
  match amGet am camelCasedKey with
  | SUndefined =>
      Ok (am ++ [(camelCasedKey,
                  {| name := camelCasedKey; relation := rel;
                     examples := pushed |})])
  | SModel m =>
      Ok (assoc_set camelCasedKey
            {| name := name m; relation := relation m;
               examples := examples m ++ pushed |} am)
  | SLength n => if (n =? 0)%N then Throw RangeError else Throw TypeError
  | SBuiltin => Throw TypeError
  end.

(** The test on the first element of an array: it is truthy and its
    [typeof] is not the string object. *)
Definition stuffable (elems : list value) : bool :=
  truthy (first_element elems) && negb (typeof_object (first_element elems)).

Definition inferDataType (v : value) (key : jsstring)
  (associatedModels : list (jsstring * associatedModel))
  : result (option jsstring * list (jsstring * associatedModel)) :=
  match v with
  | VNull => Ok (None, associatedModels)
  | VBool _ => Ok (Some DataTypes_BOOLEAN, associatedModels)
  | VNumber n =>
      if isInt n then Ok (Some DataTypes_INTEGER, associatedModels)
      else Ok (Some DataTypes_FLOAT, associatedModels)
  | VString s =>
      if dateParses s && parseInt_isNaN s
      then Ok (Some DataTypes_DATE, associatedModels)
      else if (140 <? List.length s)%nat
      then Ok (Some DataTypes_STRING_MAX, associatedModels)
      else Ok (Some DataTypes_STRING, associatedModels)
  | VArray elems =>
      if stuffable elems
      then Ok (Some DataTypes_STRING_MAX, associatedModels)
      else
        am <- register (js "1:n") elems (toCamelCase key) associatedModels ;;
        Ok (Some DataTypes_NESTED, am)
  | VObject _ =>
      am <- register (js "1:1") [v] (toCamelCase key) associatedModels ;;
      Ok (Some DataTypes_NESTED, am)
  | VUndefined => Ok (None, associatedModels)
  end.

(** [a || b] where [a] is [null] or a string. *)
Definition or_else (a : option jsstring) (b : option jsstring)
  : option jsstring :=
  match a with
  | Some t => if eqb_js t [] then b else Some t
  | None => b
  end.

(** The body of the inner loop of [generateSequelizeModel]. *)
Definition observe
  (st : object field_desc * list (jsstring * associatedModel))
  (entry : jsstring * value)
  : result (object field_desc * list (jsstring * associatedModel)) :=
  let '(body, associatedModels) := st in
  let '(key, v) := entry in
  let camelCasedKey := toCamelCase key in
  if property_truthy (bodyGet body camelCasedKey)
     && includes specialTypes (property_type (bodyGet body camelCasedKey))
  then Ok st
  else
    '(inferredType, associatedModels') <-
      inferDataType v key associatedModels ;;
    Ok (objSet body camelCasedKey
          {| type := or_else inferredType
                       (if property_truthy (bodyGet body camelCasedKey)
                        then property_type (bodyGet body camelCasedKey)
                        else Some unknown_type);
             field := key |},
        associatedModels').

Fixpoint forEach {S A} (f : S -> A -> result S) (l : list A) (s : S)
  : result S :=
  match l with
  | [] => Ok s
  | a :: rest => s' <- f s a ;; forEach f rest s'
  end.

Definition observeExample
  (st : object field_desc * list (jsstring * associatedModel)) (example : value)
  : result (object field_desc * list (jsstring * associatedModel)) :=
  entries <- Object_entries example ;;
  forEach observe entries st.

(** The first loop: every entry of every example is classified and merged. *)
Definition scanExamples (exs : list value)
  : result (object field_desc * list (jsstring * associatedModel)) :=
  forEach observeExample exs (empty_object, []).

(** [value.type] is identical to the NESTED tag. *)
Definition is_nested (d : field_desc) : bool :=
  match type d with
  | Some t => eqb_js t DataTypes_NESTED
  | None => false
  end.

(** The second loop: own entries typed [DataTypes.NESTED] are deleted. *)
Definition stripNested (body : object field_desc) : object field_desc :=
  fold_left
    (fun b p =>
       if is_nested (snd p)
       then {| own := assoc_remove (fst p) (own b); proto := proto b |}
       else b)
    (ownProperties (own body)) body.

(** ** The recursive job

    What [generateSequelizeModel] returns for each model it generated. *)
Record association_lists : Type := {
  one_to_many : list associatedModel;   (* key 1:n *)
  one_to_one : list associatedModel     (* key 1:1 *)
}.

Record modelInfo : Type := {
  model : jsstring;
  associations : association_lists
}.

(** A model file written under ./models: the model name that names the file
    and the body that is rendered into the template. *)
Definition file : Type := (jsstring * object field_desc)%type.

Definition relation_is (rel : jsstring) (m : associatedModel) : bool :=
  eqb_js (relation m) rel.

(** What one call produces: the first element of the returned array, the
    rest of it, and the model files in the order they were written. *)
Definition job_result : Type := (modelInfo * list modelInfo * list file)%type.

(** The last loop, over [Object.entries(associatedModels)]: each sub model is
    generated in turn and everything it returns is pushed onto
    [otherModels]. *)
Fixpoint generateOthers
  (job : jsstring -> list value -> outcome job_result)
  (entries : list (jsstring * associatedModel))
  : outcome (list modelInfo * list file) :=
  match entries with
  | [] => Done ([], [])
  | (key, m) :: rest =>
      match job (toCamelCase key) (examples m) with
      | Done (first, others, files) =>
          match generateOthers job rest with
          | Done (infos, files') =>
              Done (first :: others ++ infos, files ++ files')
          | Raised e => Raised e
          | OutOfFuel => OutOfFuel
          end
      | Raised e => Raised e
      | OutOfFuel => OutOfFuel
      end
  end.

(** [fuel] bounds the depth of the nested calls. Rendering the body into
    the template and writing it under ./models is kept as the pair of the
    model name and the stripped body; the file system calls are taken to
    succeed. *)
Fixpoint generateSequelizeModel (fuel : nat) (modelName : jsstring)
  (exs : list value) : outcome job_result :=
  match fuel with
  | O => OutOfFuel
  | S fuel' =>
      match scanExamples exs with
      | Throw e => Raised e
      | Ok (body, associatedModels) =>
          match generateOthers (generateSequelizeModel fuel')
                  (ownProperties associatedModels) with
          | Done (otherModels, files) =>
              Done ({| model := toCamelCase modelName;
                       associations :=
                         {| one_to_many :=
                              filter (relation_is (js "1:n"))
                                (map snd (ownProperties associatedModels));
                            one_to_one :=
                              filter (relation_is (js "1:1"))
                                (map snd (ownProperties associatedModels)) |} |},
                    otherModels,
                    (modelName, stripNested body) :: files)
          | Raised e => Raised e
          | OutOfFuel => OutOfFuel
          end
      end
  end.

(** ** The driver script

    [createModel] logs two lines and generates the models of one input
    file; the script then stores the main model under the name it was given
    and every other model under its own [model] name. An input is the model
    name (given on the command line or taken from the file name) with the
    array of examples parsed from the file; the progress bar, the index file
    and the formatter are left out. *)

Definition found_line (n : nat) (modelName : jsstring) : jsstring :=
  [10%N] ++ js "Found " ++ decimal (N.of_nat n)
    ++ js " examples for model: " ++ modelName.

Definition generating_line (modelName : jsstring) : jsstring :=
  js "Generating model: " ++ modelName.

Record run : Type := {
  table : object modelInfo;       (* the [associations] object *)
  console : list jsstring;        (* lines logged so far *)
  written : list file             (* model files written so far *)
}.

Definition start : run :=
  {| table := empty_object; console := []; written := [] |}.

Definition createModel (fuel : nat) (r : run)
  (input : jsstring * list value) : outcome run :=
  let '(modelName, exs) := input in
  let log := console r ++ [found_line (List.length exs) modelName;
                             generating_line modelName] in
  match generateSequelizeModel fuel modelName exs with
  | Done (mainModel, otherModels, files) =>
      Done {| table :=
                fold_left (fun t m => objSet t (model m) m) otherModels
                  (objSet (table r) modelName mainModel);
              console := log;
              written := written r ++ files |}
  | Raised e => Raised e
  | OutOfFuel => OutOfFuel
  end.

Fixpoint createModels (fuel : nat) (r : run)
  (inputs : list (jsstring * list value)) : outcome run :=
  match inputs with
  | [] => Done r
  | input :: rest =>
      match createModel fuel r input with
      | Done r' => createModels fuel r' rest
      | Raised e => Raised e
      | OutOfFuel => OutOfFuel
      end
  end.

End Engine.

(** ** Vocabulary of the properties *)

(** Height of a value as a tree: every array and every object counts for
    one level. *)
Fixpoint nesting_depth (v : value) : nat :=
  match v with
  | VArray elems =>
      S (fold_right (fun e acc => Nat.max (nesting_depth e) acc) 0 elems)
  | VObject props =>
      S (fold_right (fun p acc => Nat.max (nesting_depth (snd p)) acc) 0 props)
  | _ => 0
  end.

(** Nesting depth of a batch of examples: that of its deepest example. *)
Definition batch_depth (exs : list value) : nat :=
  fold_right (fun e acc => Nat.max (nesting_depth e) acc) 0 exs.

Definition is_plain_object (v : value) : bool :=
  match v with
  | VObject _ => true
  | _ => false
  end.

(** A non-empty array all of whose elements are plain objects. *)
Definition is_structured_array (v : value) : bool :=
  match v with
  | VArray (e :: rest) => forallb is_plain_object (e :: rest)
  | _ => false
  end.

(** The relation under which a value registers an association, if it
    registers one. *)
Definition registers (v : value) : option jsstring :=
  match v with
  | VObject _ => Some (js "1:1")
  | VArray elems => if stuffable elems then None else Some (js "1:n")
  | _ => None
  end.

(** What a registering value pushes onto the examples of its association. *)
Definition pushedExamples (v : value) : list value :=
  match v with
  | VObject _ => [v]
  | VArray elems => elems
  | _ => []
  end.

(** A plain integer as the specification words it: digits only, after an
    optional sign. *)
Definition is_plain_integer (s : jsstring) : bool :=
  let digits := match s with
                | 45%N :: rest => rest
                | 43%N :: rest => rest
                | _ => s
                end in
  negb (eqb_js digits []) && forallb is_digit digits.

(** The key/value pairs the first loop visits, in order. *)
Fixpoint observations (exs : list value) : result (list (jsstring * value)) :=
  match exs with
  | [] => Ok []
  | example :: rest =>
      entries <- Object_entries example ;;
      others <- observations rest ;;
      Ok (entries ++ others)
  end.

(** No stored type is listed in [specialTypes]. *)
Definition clean (body : object field_desc) : Prop :=
  (forall k d, In (k, d) (own body) -> includes specialTypes (type d) = false)
  /\ (forall p, proto body = Some p -> includes specialTypes (type p) = false).

Section Vocabulary.
Context {host : Host}.

(** The type the merger stores for an observation whose classification is
    a tag or [null]. *)
Definition mergedType (body : object field_desc) (camelCasedKey : jsstring)
  (inferredType : option jsstring) : option jsstring :=
  match inferredType with
  | Some t => Some t
  | None =>
      if property_truthy (bodyGet body camelCasedKey)
      then property_type (bodyGet body camelCasedKey)
      else Some unknown_type
  end.

(** The raw key of the last observation whose key canonicalizes to
    [camelCasedKey]. *)
Definition lastSpelling (camelCasedKey : jsstring)
  (obs : list (jsstring * value)) : option jsstring :=
  fold_left
    (fun acc entry =>
       if eqb_js (toCamelCase (fst entry)) camelCasedKey
       then Some (fst entry) else acc) obs None.

(** The relation of the first observation of [camelCasedKey] that registers
    an association. *)
Fixpoint firstRegistration (camelCasedKey : jsstring)
  (obs : list (jsstring * value)) : option jsstring :=
  match obs with
  | [] => None
  | (key, v) :: rest =>
      if eqb_js (toCamelCase key) camelCasedKey then
        match registers v with
        | Some rel => Some rel
        | None => firstRegistration camelCasedKey rest
        end
      else firstRegistration camelCasedKey rest
  end.

(** The DateTime guard as the specification words it, for one string: the
    tag is DataTypes.DATE exactly when the string parses as a date and is
    not a plain integer. *)
Definition datetime_guard_as_worded (s : jsstring) : Prop :=
  forall key am tag am',
    inferDataType (VString s) key am = Ok (tag, am') ->
    (tag = Some DataTypes_DATE
     <-> dateParses s = true /\ is_plain_integer s = false).

(** Cardinality determinism as the specification words it, for the
    association table that the first loop builds from [exs]. *)
Definition cardinality_determinism (exs : list value) : Prop :=
  forall body am obs camelCasedKey m,
    scanExamples exs = Ok (body, am) ->
    observations exs = Ok obs ->
    assoc camelCasedKey am = Some m ->
    ((forall key v, In (key, v) obs -> toCamelCase key = camelCasedKey ->
                    is_plain_object v = true) ->
     relation m = js "1:1")
    /\ ((exists key v, In (key, v) obs /\ toCamelCase key = camelCasedKey
                       /\ is_structured_array v = true) ->
        relation m = js "1:n").

(** Merger preservation as the specification words it, for one step of the
    first loop: a field with a known type keeps it when the classifier
    answers [null] or NESTED. *)
Definition preserves_known_type
  (st : object field_desc * list (jsstring * associatedModel))
  (entry : jsstring * value) : Prop :=
  forall d tag am',
    assoc (toCamelCase (fst entry)) (own (fst st)) = Some d ->
    inferDataType (snd entry) (fst entry) (snd st) = Ok (tag, am') ->
    tag = None \/ tag = Some DataTypes_NESTED ->
    exists st',
      observe st entry = Ok st'
      /\ option_map type (assoc (toCamelCase (fst entry)) (own (fst st')))
         = Some (type d).

(** The two lines [createModel] logs. *)
Definition is_progress_line (line : jsstring) : Prop :=
  exists n modelName,
    line = found_line n modelName \/ line = generating_line modelName.

Definition progress_lines (input : jsstring * list value) : list jsstring :=
  [found_line (List.length (snd input)) (fst input);
   generating_line (fst input)].

(** Two descriptions of one model disagree on the cardinality of a key. *)
Definition incompatible (a b : modelInfo) : bool :=
  existsb (fun k => existsb (eqb_js k)
                      (map name (one_to_many (associations b))))
    (map name (one_to_one (associations a)))
  || existsb (fun k => existsb (eqb_js k)
                         (map name (one_to_one (associations b))))
       (map name (one_to_many (associations a))).

Fixpoint has_collision (infos : list modelInfo) : bool :=
  match infos with
  | [] => false
  | a :: rest =>
      existsb (fun b => eqb_js (model a) (model b) && incompatible a b) rest
      || has_collision rest
  end.

(** Every model description the jobs of [inputs] return, in order. *)
Definition discovered (fuel : nat) (inputs : list (jsstring * list value))
  : list modelInfo :=
  flat_map
    (fun input =>
       match generateSequelizeModel fuel (fst input) (snd input) with
       | Done (mainModel, otherModels, _) => mainModel :: otherModels
       | _ => []
       end) inputs.

(** The assignments to the [associations] object that the driver makes for
    [inputs], in order: the main model under the name given on the command
    line, every other model under its [model] name. *)
Definition assignments (fuel : nat) (inputs : list (jsstring * list value))
  : list (jsstring * modelInfo) :=
  flat_map
    (fun input =>
       match generateSequelizeModel fuel (fst input) (snd input) with
       | Done (mainModel, otherModels, _) =>
           (fst input, mainModel) :: map (fun m => (model m, m)) otherModels
       | _ => []
       end) inputs.

(** The value of the last assignment to [k]. *)
Definition lastAssigned (k : jsstring)
  (assigned : list (jsstring * modelInfo)) : option modelInfo :=
  fold_left
    (fun acc a => if eqb_js (fst a) k then Some (snd a) else acc)
    assigned None.

(** Name-collision reporting as the specification words it: a run over
    inputs with a collision logs something beyond the progress lines. *)
Definition collisions_reported (fuel : nat)
  (inputs : list (jsstring * list value)) : Prop :=
  forall r,
    createModels fuel start inputs = Done r ->
    has_collision (discovered fuel inputs) = true ->
    exists line, In line (console r) /\ ~ is_progress_line line.

(** The nested calls of a job go exactly [n] deep: [n] levels are enough and
    one fewer is not. *)
Definition recursion_depth_is (n : nat) (modelName : jsstring)
  (exs : list value) : Prop :=
  generateSequelizeModel n modelName exs <> OutOfFuel
  /\ generateSequelizeModel (pred n) modelName exs = OutOfFuel.

End Vocabulary.

(** ** A sample host

    Used to run the model on concrete inputs. *)

(** Modelled from the spec: [isInt] of ./utilities is not part of the
    sources at hand; a number is an integer when it has no fractional
    component. *)
Definition sample_isInt (n : spec_float) : bool :=
  match n with
  | S754_zero _ => true
  | S754_finite _ m e =>
      (0 <=? e)%Z || (Z.pos m mod 2 ^ (- e) =? 0)%Z
  | _ => false
  end.

Definition is_separator (c : code_unit) : bool :=
  existsb (N.eqb c) [32; 45; 95]%N.

Definition upper (c : code_unit) : code_unit :=
  if (97 <=? c)%N && (c <=? 122)%N then (c - 32)%N else c.

Definition lower (c : code_unit) : code_unit :=
  if (65 <=? c)%N && (c <=? 90)%N then (c + 32)%N else c.

Fixpoint camel (up : bool) (s : jsstring) : jsstring :=
  match s with
  | [] => []
  | c :: rest =>
      if is_separator c then camel true rest
      else (if up then upper c else c) :: camel false rest
  end.

(** Modelled from the spec: [toCamelCase] of ./utilities is not part of the
    sources at hand; the glossary describes canonicalization as normalizing
    a raw key into a consistent identifier casing. Here: separators (space,
    hyphen, underscore) are dropped, the letter after one is capitalized and
    the first letter is lowered. *)
Definition sample_toCamelCase (s : jsstring) : jsstring :=
  match camel false s with
  | [] => []
  | c :: rest => lower c :: rest
  end.

(** Dates of the form YYYY-MM-DD. *)
Definition is_iso_date (s : jsstring) : bool :=
  match s with
  | [y1; y2; y3; y4; 45%N; m1; m2; 45%N; d1; d2] =>
      forallb is_digit [y1; y2; y3; y4; m1; m2; d1; d2]
      && (1 <=? digits_value [m1; m2])%N && (digits_value [m1; m2] <=? 12)%N
      && (1 <=? digits_value [d1; d2])%N && (digits_value [d1; d2] <=? 31)%N
  | _ => false
  end.

Fixpoint strip_prefix (pre s : jsstring) : option jsstring :=
  match pre, s with
  | [], _ => Some s
  | a :: pre', b :: s' => if N.eqb a b then strip_prefix pre' s' else None
  | _ :: _, [] => None
  end.

Definition month_names : list jsstring :=
  map js ["January"; "February"; "March"; "April"; "May"; "June"; "July";
          "August"; "September"; "October"; "November"; "December"]%string.

(** Dates of the form Month D, YYYY, with the month written out. *)
Definition is_long_date (s : jsstring) : bool :=
  existsb
    (fun month =>
       match strip_prefix (month ++ [32%N]) s with
       | Some [d; 44%N; 32%N; y1; y2; y3; y4] =>
           forallb is_digit [d; y1; y2; y3; y4]
           && (1 <=? digits_value [d])%N
       | Some [d1; d2; 44%N; 32%N; y1; y2; y3; y4] =>
           forallb is_digit [d1; d2; y1; y2; y3; y4]
           && (1 <=? digits_value [d1; d2])%N
           && (digits_value [d1; d2] <=? 31)%N
       | _ => false
       end) month_names.

(** Two of the formats the engines accept: the ISO date, which every engine
    must accept, and the long date of the engines' own format. *)
Definition sample_dateParses (s : jsstring) : bool :=
  is_iso_date s || is_long_date s.

Definition object_prototype_names : list jsstring :=
  map js ["constructor"; "hasOwnProperty"; "isPrototypeOf";
          "propertyIsEnumerable"; "toLocaleString"; "toString"; "valueOf";
          "__proto__"; "__defineGetter__"; "__defineSetter__";
          "__lookupGetter__"; "__lookupSetter__"]%string.

Definition array_prototype_names : list jsstring :=
  map js ["at"; "concat"; "copyWithin"; "entries"; "every"; "fill";
          "filter"; "find"; "findIndex"; "findLast"; "findLastIndex";
          "flat"; "flatMap"; "forEach"; "includes"; "indexOf"; "join";
          "keys"; "lastIndexOf"; "map"; "pop"; "push"; "reduce";
          "reduceRight"; "reverse"; "shift"; "slice"; "some"; "sort";
          "splice"; "toReversed"; "toSorted"; "toSpliced"; "unshift";
          "values"; "with"]%string.

Definition sampleHost : Host := {|
  isInt := sample_isInt;
  toCamelCase := sample_toCamelCase;
  dateParses := sample_dateParses;
  objectProto := fun k => existsb (eqb_js k) object_prototype_names;
  arrayProto := fun k =>
    existsb (eqb_js k) (array_prototype_names ++ object_prototype_names)
|}.

(** Number literals used in the examples. *)
Definition num (z : Z) : value :=
  VNumber (match z with
           | Z0 => S754_zero false
           | Zpos p => S754_finite false p 0
           | Zneg p => S754_finite true p 0
           end).

Definition str (s : string) : value := VString (js s).

Definition prop (k : string) (v : value) : jsstring * value := (js k, v).

(** ** Vocabulary of the further properties *)

Section Scan.
Context {host : Host}.

(** What the classifier answers for a value when it returns. *)
Definition tagOf (v : value) : option jsstring :=
  match v with
  | VUndefined | VNull => None
  | VBool _ => Some DataTypes_BOOLEAN
  | VNumber n => Some (if isInt n then DataTypes_INTEGER else DataTypes_FLOAT)
  | VString s =>
      Some (if dateParses s && parseInt_isNaN s then DataTypes_DATE
            else if (140 <? List.length s)%nat then DataTypes_STRING_MAX
            else DataTypes_STRING)
  | VArray elems =>
      Some (if stuffable elems then DataTypes_STRING_MAX else DataTypes_NESTED)
  | VObject _ => Some DataTypes_NESTED
  end.

(** The tag of the last observation of [camelCasedKey] that the classifier
    does not answer with [null]. *)
Definition lastTag (camelCasedKey : jsstring)
  (obs : list (jsstring * value)) : option jsstring :=
  fold_left
    (fun acc entry =>
       if eqb_js (toCamelCase (fst entry)) camelCasedKey
       then match tagOf (snd entry) with
            | Some t => Some t
            | None => acc
            end
       else acc) obs None.

(** The examples that the observations of [camelCasedKey] push, in order. *)
Definition collected (camelCasedKey : jsstring)
  (obs : list (jsstring * value)) : list value :=
  flat_map
    (fun entry =>
       if eqb_js (toCamelCase (fst entry)) camelCasedKey
       then match registers (snd entry) with
            | Some _ => pushedExamples (snd entry)
            | None => []
            end
       else []) obs.

(** An assignment to this key goes to the [__proto__] setter. *)
Definition sets_prototype (k : jsstring) : bool :=
  eqb_js k proto_key && objectProto k.

(** The canonical keys in the order they are first observed, without those
    that go to the [__proto__] setter. *)
Definition fieldKeys (obs : list (jsstring * value)) : list jsstring :=
  fold_left
    (fun acc entry =>
       if existsb (eqb_js (toCamelCase (fst entry))) acc then acc
       else if sets_prototype (toCamelCase (fst entry)) then acc
       else acc ++ [toCamelCase (fst entry)]) obs [].

(** The canonical keys in the order they first register an association. *)
Definition associationKeys (obs : list (jsstring * value)) : list jsstring :=
  fold_left
    (fun acc entry =>
       match registers (snd entry) with
       | Some _ =>
           if existsb (eqb_js (toCamelCase (fst entry))) acc then acc
           else acc ++ [toCamelCase (fst entry)]
       | None => acc
       end) obs [].

(** What holds of [body] and [associatedModels] after every observation. *)
Definition fields_invariant
  (st : object field_desc * list (jsstring * associatedModel))
  (seen : list (jsstring * value)) : Prop :=
  map fst (own (fst st)) = fieldKeys seen
  /\ (forall p, proto (fst st) = Some p -> objectProto proto_key = true)
  /\ (forall key v, In (key, v) seen ->
        assoc (toCamelCase key) (own (fst st)) <> None
        \/ sets_prototype (toCamelCase key) = true)
  /\ (forall ck d t, assoc ck (own (fst st)) = Some d ->
        lastTag ck seen = Some t -> type d = Some t)
  /\ (forall ck d, assoc ck (own (fst st)) = Some d ->
        type d = Some DataTypes_NESTED -> assoc ck (snd st) <> None).

End Scan.

Section JobVocabulary.
Context {host : Host}.

(** The associations a model description lists, 1:n first. *)
Definition listed (d : modelInfo) : list associatedModel :=
  one_to_many (associations d) ++ one_to_one (associations d).

(** The description the job returns for a batch without associations. *)
Definition bare_model (modelName : jsstring) : modelInfo :=
  {| model := toCamelCase modelName;
     associations := {| one_to_many := []; one_to_one := [] |} |}.

End JobVocabulary.

(** ** The index file

    [writeIndexFile] walks the [associations] object and builds three
    lists of strings, which it then joins into the template of the index
    file. *)

Definition import_statement (modelName : jsstring) : jsstring :=
  js "const " ++ modelName ++ js " = require(" ++ quote ++ js "./"
    ++ modelName ++ quote ++ js ")(sequelize, Sequelize);".

(** The statements of a 1:n association carry no semicolon, those of a 1:1
    association do. *)
Definition hasMany_statement (modelName subModelName : jsstring) : jsstring :=
  modelName ++ js ".hasMany(" ++ subModelName ++ js ")".

Definition belongsTo_statement (subModelName modelName : jsstring) : jsstring :=
  subModelName ++ js ".belongsTo(" ++ modelName ++ js ")".

Definition hasOne_statement (modelName subModelName : jsstring) : jsstring :=
  modelName ++ js ".hasOne(" ++ subModelName ++ js ");".

Definition belongsTo_one_statement (subModelName modelName : jsstring)
  : jsstring :=
  subModelName ++ js ".belongsTo(" ++ modelName ++ js ");".

Record index_lists : Type := {
  importStatements : list jsstring;
  modelNames : list jsstring;
  relations : list jsstring
}.

Section Index.
Context {host : Host}.

(** [associations[k]] is truthy: [k] is an own property, or it is found on
    the object installed by an assignment to [__proto__] (whose properties
    are [model], a string, and [associations], an object), or on
    [Object.prototype]. *)
Definition tableHas (t : object modelInfo) (k : jsstring) : bool :=
  match assoc k (own t) with
  | Some _ => true
  | None =>
      match proto t with
      | Some p =>
          if eqb_js k (js "model") then negb (eqb_js (model p) [])
          else if eqb_js k (js "associations") then true
          else if eqb_js k proto_key then true
          else objectProto k
      | None => objectProto k
      end
  end.

(** The body of the two inner loops: the pair of statements is pushed, and
    a sub model that [associations] does not hold is imported and named. *)
Definition forSubModel (t : object modelInfo)
  (hasStmt belongsStmt : jsstring -> jsstring) (acc : index_lists)
  (subModel : associatedModel) : index_lists :=
  let subModelName := name subModel in
  if tableHas t subModelName
  then {| importStatements := importStatements acc;
          modelNames := modelNames acc;
          relations := relations acc ++ [hasStmt subModelName;
                                         belongsStmt subModelName] |}
  else {| importStatements :=
            importStatements acc ++ [import_statement subModelName];
          modelNames := modelNames acc ++ [subModelName];
          relations := relations acc ++ [hasStmt subModelName;
                                         belongsStmt subModelName] |}.

(** The body of the outer loop, for the key [modelName] and the description
    stored under it. *)
Definition forModel (t : object modelInfo) (acc : index_lists)
  (entry : jsstring * modelInfo) : index_lists :=
  let modelName := fst entry in
  let imported :=
    {| importStatements :=
         importStatements acc ++ [import_statement modelName];
       modelNames := modelNames acc;
       relations := relations acc |} in
  let many :=
    fold_left
      (forSubModel t (hasMany_statement modelName)
         (fun subModelName => belongsTo_statement subModelName modelName))
      (one_to_many (associations (snd entry))) imported in
  let one :=
    fold_left
      (forSubModel t (hasOne_statement modelName)
         (fun subModelName => belongsTo_one_statement subModelName modelName))
      (one_to_one (associations (snd entry))) many in
  {| importStatements := importStatements one;
     modelNames := modelNames one ++ [modelName];
     relations := relations one |}.

(** The three lists [writeIndexFile] builds; joining them into the template
    and writing the file are left out. *)
Definition writeIndexFile (t : object modelInfo) : index_lists :=
  fold_left (forModel t) (ownProperties (own t))
    {| importStatements := []; modelNames := []; relations := [] |}.

(** Every association listed by a description stored in the table resolves
    in the table. *)
Definition closed_table (t : object modelInfo) : Prop :=
  forall k d s,
    In (k, d) (own t) -> In s (listed d) -> tableHas t (name s) = true.

(** An assignment to [k] has left its mark on the table. *)
Definition assigned (t : object modelInfo) (k : jsstring) : Prop :=
  assoc k (own t) <> None \/ (sets_prototype k = true /\ proto t <> None).

(** The model files the jobs of [inputs] write, in order. *)
Definition writtenFiles (fuel : nat) (inputs : list (jsstring * list value))
  : list file :=
  flat_map
    (fun input =>
       match generateSequelizeModel fuel (fst input) (snd input) with
       | Done (_, _, files) => files
       | _ => []
       end) inputs.

End Index.

(** ** Paths of the input files *)

Fixpoint starts_with (pre s : jsstring) : bool :=
  match pre, s with
  | [], _ => true
  | a :: pre', b :: s' => N.eqb a b && starts_with pre' s'
  | _ :: _, [] => false
  end.

(** [s.split(sep)] for a non-empty separator, scanning [s] from the left:
    [cur] holds the current piece, reversed, and [skip] the code units of a
    matched separator that are still to be passed over. *)
Fixpoint split_from (sep s cur : jsstring) (skip : nat) : list jsstring :=
  match s with
  | [] => [rev cur]
  | c :: rest =>
      match skip with
      | S skip' => split_from sep rest cur skip'
      | O =>
          if starts_with sep s
          then rev cur :: split_from sep rest [] (List.length sep - 1)
          else split_from sep rest (c :: cur) 0
      end
  end.

Definition split (sep s : jsstring) : list jsstring := split_from sep s [] 0.

(** [path.split(".")[path.split(".").length - 1]], the extension that the
    driver checks. *)
Definition fileExtension (path : jsstring) : jsstring :=
  last (split (js ".") path) [].

(** [path.split("/")[path.split("/").length - 1].split(".json")[0]], the
    model name of the further input files. *)
Definition inferredModelName (path : jsstring) : jsstring :=
  hd [] (split (js ".json") (last (split (js "/") path) [])).

Definition no_dot (s : jsstring) : Prop := Forall (fun c => c <> 46%N) s.
Definition no_slash (s : jsstring) : Prop := Forall (fun c => c <> 47%N) s.

(** The order in which [Object.keys] lists properties that were created in
    the order [keys]: array indices ascending, then the other keys in
    creation order. *)
Definition ownKeys (keys : list jsstring) : list jsstring :=
  map fst (ownProperties (map (fun k => (k, tt)) keys)).

(** A record whose keys are not created in the order they are listed. *)
Definition index_like_keys : list value :=
  [VObject [prop "b" (VObject [prop "x" (num 1)]); prop "name" (str "Ann")];
   VObject [prop "2" (VObject [prop "y" (num 2)]); prop "7" (num 1)]].

(** ** Inputs of the examples *)

(** The state after the record with a = 1, and the observation of a nested
    object under the same key. *)
Definition known_integer
  : object field_desc * list (jsstring * associatedModel) :=
  ({| own := [(js "a", {| type := Some DataTypes_INTEGER; field := js "a" |})];
      proto := None |}, []).

Definition nested_observation : jsstring * value :=
  prop "a" (VObject [prop "x" (num 1)]).

(** A field that is a plain object in one record and an array of objects in
    the next. *)
Definition object_then_array : list value :=
  [VObject [prop "pet" (VObject [prop "n" (num 1)])];
   VObject [prop "pet" (VArray [VObject [prop "n" (num 2)]])]].

(** A record whose only field is an array that starts with a number and then
    holds objects nested four deep. *)
Definition deep_scalar_array : list value :=
  [VObject
     [prop "k"
        (VArray
           [num 1;
            VObject [prop "a" (VObject [prop "b" (VObject [prop "c"
                                                            (VObject [])])])]])]].

(** A record with an array of two objects. *)
Definition orders_example : list value :=
  [VObject [prop "id" (num 1);
            prop "orders" (VArray [VObject [prop "sku" (str "A")];
                                   VObject [prop "sku" (str "B")]])]].

(** Two input files whose records nest a member: its pet is one object in
    the first file and an array of objects in the second. *)
Definition colliding_inputs : list (jsstring * list value) :=
  [(js "team",
    [VObject [prop "member"
                (VObject [prop "pet" (VObject [prop "n" (num 1)])])]]);
   (js "club",
    [VObject [prop "member"
                (VObject [prop "pet" (VArray [VObject [prop "n" (num 2)]])])]])].

(** A record with a nested address. *)
Definition address_example : list value :=
  [VObject [prop "id" (num 1);
            prop "address" (VObject [prop "city" (str "X")])]].

(** Two records that spell one canonical name differently. *)
Definition two_spellings : list value :=
  [VObject [prop "first_name" (str "Ann")];
   VObject [prop "firstName" (str "Bob")]].

(** A field that is only ever [null], next to a typed one. *)
Definition null_only_field : list value :=
  [VObject [prop "note" VNull];
   VObject [prop "id" (num 1); prop "note" VNull]].

(** * Properties *)

Unset Implicit Arguments.

(** ** Strings *)

Lemma eqb_js_eq (s t : jsstring) : eqb_js s t = true <-> s = t.
Proof.
  revert t; induction s as [|a s IH]; intros [|b t]; simpl; split;
    try congruence; try reflexivity.
  - intros H. apply andb_true_iff in H as [Hab Hst].
    apply N.eqb_eq in Hab. apply IH in Hst. congruence.
  - intros H. injection H as -> ->. rewrite N.eqb_refl. simpl. now apply IH.
Qed.

Lemma eqb_js_refl (s : jsstring) : eqb_js s s = true.
Proof. now apply eqb_js_eq. Qed.

Lemma eqb_js_neq (s t : jsstring) : eqb_js s t = false <-> s <> t.
Proof.
  split.
  - intros H E. apply eqb_js_eq in E. congruence.
  - intros H. destruct (eqb_js s t) eqn:E; [|reflexivity].
    apply eqb_js_eq in E. contradiction.
Qed.

Lemma eqb_js_sym (s t : jsstring) : eqb_js s t = eqb_js t s.
Proof.
  destruct (eqb_js s t) eqn:E.
  - apply eqb_js_eq in E. subst. symmetry. apply eqb_js_refl.
  - symmetry. apply eqb_js_neq. apply eqb_js_neq in E. congruence.
Qed.

(** ** Property tables *)

Section Tables.
Context {A : Type}.
Implicit Types (l : list (jsstring * A)) (k : jsstring).

Lemma assoc_In l k a : assoc k l = Some a -> In (k, a) l.
Proof.
  induction l as [|[k' a'] l IH]; simpl; [discriminate|].
  destruct (eqb_js k k') eqn:E.
  - apply eqb_js_eq in E. intros [= ->]. subst. now left.
  - intros H. right. now apply IH.
Qed.

Lemma assoc_None_not_In l k : assoc k l = None -> ~ In k (map fst l).
Proof.
  induction l as [|[k' a'] l IH]; simpl; [tauto|].
  destruct (eqb_js k k') eqn:E; [discriminate|].
  apply eqb_js_neq in E. intros H [H1|H1]; [congruence|]. now apply IH.
Qed.

Lemma assoc_app_absent l k a : assoc k l = None -> assoc k (l ++ [(k, a)]) = Some a.
Proof.
  induction l as [|[k' a'] l IH]; simpl.
  - now rewrite eqb_js_refl.
  - destruct (eqb_js k k'); [discriminate|]. exact IH.
Qed.

Lemma assoc_app_other l k k' a :
  k <> k' -> assoc k (l ++ [(k', a)]) = assoc k l.
Proof.
  intros Hne. induction l as [|[k0 a0] l IH]; simpl.
  - apply eqb_js_neq in Hne. now rewrite Hne.
  - destruct (eqb_js k k0); [reflexivity|]. exact IH.
Qed.

Lemma assoc_set_same l k a a0 :
  assoc k l = Some a0 -> assoc k (assoc_set k a l) = Some a.
Proof.
  induction l as [|[k' a'] l IH]; simpl; [discriminate|].
  destruct (eqb_js k k') eqn:E; simpl; rewrite E; [reflexivity|]. exact IH.
Qed.

Lemma assoc_set_other l k k' a :
  k <> k' -> assoc k (assoc_set k' a l) = assoc k l.
Proof.
  intros Hne. induction l as [|[k0 a0] l IH]; simpl.
  - apply eqb_js_neq in Hne. now rewrite Hne.
  - destruct (eqb_js k' k0) eqn:E; simpl.
    + apply eqb_js_eq in E. subst k0.
      apply eqb_js_neq in Hne. now rewrite Hne.
    + destruct (eqb_js k k0); [reflexivity|]. exact IH.
Qed.

Lemma assoc_set_keys l k a a0 :
  assoc k l = Some a0 -> map fst (assoc_set k a l) = map fst l.
Proof.
  induction l as [|[k' a'] l IH]; simpl; [discriminate|].
  destruct (eqb_js k k') eqn:E; simpl; [reflexivity|].
  intros H. f_equal. now apply IH.
Qed.

Lemma assoc_set_In l k a p :
  In p (assoc_set k a l) -> In p l \/ p = (k, a).
Proof.
  induction l as [|[k' a'] l IH]; simpl.
  - intros [<-|[]]. now right.
  - destruct (eqb_js k k') eqn:E; simpl.
    + apply eqb_js_eq in E. subst k'. intros [<-|H]; [now right|]. left. now right.
    + intros [<-|H]; [left; now left|].
      destruct (IH H) as [H'|H']; [left; now right|now right].
Qed.

Lemma assoc_remove_In l k p :
  In p (assoc_remove k l) -> In p l /\ fst p <> k.
Proof.
  induction l as [|[k' a'] l IH]; simpl; [tauto|].
  destruct (eqb_js k k') eqn:E.
  - intros H. destruct (IH H). split; [now right|assumption].
  - apply eqb_js_neq in E. intros [<-|H].
    + split; [now left|]. simpl. congruence.
    + destruct (IH H). split; [now right|assumption].
Qed.

Lemma assoc_remove_assoc l k k' a :
  assoc k (assoc_remove k' l) = Some a -> assoc k l = Some a.
Proof.
  induction l as [|[k0 a0] l IH]; simpl; [discriminate|].
  destruct (eqb_js k' k0) eqn:E.
  - apply eqb_js_eq in E. subst k0. intros H.
    destruct (eqb_js k k') eqn:E'.
    + apply eqb_js_eq in E'. subst k'.
      apply assoc_In, assoc_remove_In in H. simpl in H. tauto.
    + now apply IH.
  - simpl. destruct (eqb_js k k0); [trivial|]. exact IH.
Qed.

Lemma assoc_remove_NoDup l k :
  NoDup (map fst l) -> NoDup (map fst (assoc_remove k l)).
Proof.
  induction l as [|[k' a'] l IH]; simpl; [trivial|].
  intros H. inversion H as [|? ? Hn Hd]; subst.
  destruct (eqb_js k k'); [now apply IH|].
  simpl. constructor; [|now apply IH].
  intros Hin. apply Hn. apply in_map_iff in Hin as [p [Hp Hin]].
  apply assoc_remove_In in Hin as [Hin _].
  apply in_map_iff. now exists p.
Qed.

Lemma insert_by_index_In n p (acc : list (N * (jsstring * A))) x :
  In x (insert_by_index n p acc) <-> x = (n, p) \/ In x acc.
Proof.
  induction acc as [|[m q] acc IH]; simpl.
  - intuition congruence.
  - destruct (n <? m)%N; simpl; [intuition congruence|].
    rewrite IH. intuition congruence.
Qed.

Lemma index_part_In l n p :
  In (n, p) (index_part l) <-> In p l /\ array_index (fst p) = Some n.
Proof.
  unfold index_part.
  assert (G : forall acc,
    In (n, p) (fold_left
      (fun acc p => match array_index (fst p) with
                    | Some n => insert_by_index n p acc
                    | None => acc
                    end) l acc)
    <-> In (n, p) acc \/ (In p l /\ array_index (fst p) = Some n)).
  { induction l as [|q l IH]; intros acc; simpl; [tauto|].
    rewrite IH. destruct (array_index (fst q)) as [m|] eqn:E.
    - rewrite insert_by_index_In. split.
      + intros [[H|H]|[H1 H2]]; [|tauto|tauto].
        injection H as -> ->. right. split; [now left|assumption].
      + intros [H|[[->|H1] H2]]; [tauto| |tauto].
        left. left. congruence.
    - split; [tauto|]. intros [H|[[->|H1] H2]]; [tauto|congruence|tauto]. }
  rewrite G. simpl. tauto.
Qed.

(** [Object.entries] visits exactly the own properties. *)
Lemma ownProperties_In l p : In p (ownProperties l) <-> In p l.
Proof.
  unfold ownProperties, string_part.
  rewrite in_app_iff, filter_In, in_map_iff. split.
  - intros [[[n q] [Hq Hin]]|[H _]]; [|assumption].
    simpl in Hq. subst q. now apply index_part_In in Hin.
  - intros H. destruct (array_index (fst p)) as [n|] eqn:E.
    + left. exists (n, p). split; [reflexivity|]. now apply index_part_In.
    + right. now split.
Qed.

Lemma entries_from_In (i : N) (xs : list A) k x :
  In (k, x) (entries_from i xs) -> In x xs.
Proof.
  revert i. induction xs as [|y xs IH]; simpl; intros i; [tauto|].
  intros [[= _ ->]|H]; [now left|]. right. now apply (IH (N.succ i)).
Qed.

End Tables.

(** ** The classifier *)

Section Classifier.
Context {host : Host}.
Implicit Types (v : value) (key : jsstring)
  (am : list (jsstring * associatedModel)).

(** No tag the classifier returns is listed in [specialTypes]. *)
Lemma inferDataType_not_special v key am tag am' :
  inferDataType v key am = Ok (tag, am') ->
  includes specialTypes tag = false.
Proof.
  destruct v; simpl.
  - intros [= <- _]; reflexivity.
  - intros [= <- _]; reflexivity.
  - intros [= <- _]; reflexivity.
  - destruct (isInt n); intros [= <- _]; reflexivity.
  - destruct (dateParses s && parseInt_isNaN s);
      [|destruct (140 <? List.length s)]; intros [= <- _]; reflexivity.
  - destruct (stuffable elems); [intros [= <- _]; reflexivity|].
    destruct (register _ _ _ _); simpl; [|discriminate].
    intros [= <- _]; reflexivity.
  - destruct (register _ _ _ _); simpl; [|discriminate].
    intros [= <- _]; reflexivity.
Qed.

(** Every tag the classifier returns is a non-empty string, so [||] keeps
    it. *)
Lemma inferDataType_or_else v key am tag am' fallback :
  inferDataType v key am = Ok (tag, am') ->
  or_else tag fallback = match tag with Some t => Some t | None => fallback end.
Proof.
  destruct v; simpl.
  - intros [= <- _]; reflexivity.
  - intros [= <- _]; reflexivity.
  - intros [= <- _]; reflexivity.
  - destruct (isInt n); intros [= <- _]; reflexivity.
  - destruct (dateParses s && parseInt_isNaN s);
      [|destruct (140 <? List.length s)]; intros [= <- _]; reflexivity.
  - destruct (stuffable elems); [intros [= <- _]; reflexivity|].
    destruct (register _ _ _ _); simpl; [|discriminate].
    intros [= <- _]; reflexivity.
  - destruct (register _ _ _ _); simpl; [|discriminate].
    intros [= <- _]; reflexivity.
Qed.

(** Strings are classified without touching the association table. *)
Lemma inferDataType_string s key am :
  inferDataType (VString s) key am =
  Ok (Some (if dateParses s && parseInt_isNaN s then DataTypes_DATE
            else if (140 <? List.length s)%nat then DataTypes_STRING_MAX
            else DataTypes_STRING), am).
Proof.
  simpl. destruct (dateParses s && parseInt_isNaN s); [reflexivity|].
  destruct (140 <? List.length s); reflexivity.
Qed.

(** The condition the classifier tests: a string is tagged DataTypes.DATE
    exactly when the engine parses it as a date and [parseInt(s, 10)] is
    NaN; the string 0012, which [parseInt] reads as 12, is tagged
    DataTypes.STRING on every host. *)
Theorem datetime_guard (s key : jsstring)
  (am : list (jsstring * associatedModel)) :
  (exists tag,
     inferDataType (VString s) key am = Ok (Some tag, am)
     /\ (tag = DataTypes_DATE
         <-> dateParses s = true /\ parseInt_isNaN s = true))
  /\ parseInt10 (js "0012") = Some 12%Z
  /\ inferDataType (VString (js "0012")) key am
     = Ok (Some DataTypes_STRING, am).
Proof.
  split; [|split].
  - rewrite inferDataType_string. eexists. split; [reflexivity|].
    rewrite <- andb_true_iff.
    destruct (dateParses s && parseInt_isNaN s).
    + tauto.
    + split; [|discriminate].
      destruct (140 <? List.length s); discriminate.
  - reflexivity.
  - rewrite inferDataType_string.
    replace (parseInt_isNaN (js "0012")) with false by reflexivity.
    rewrite andb_false_r. reflexivity.
Qed.

(** A string that starts with a digit is never tagged DataTypes.DATE, a
    date in ISO format included: [parseInt] stops at the first character that
    is not a digit and returns the prefix. *)
Lemma leading_digit_not_date c s key am :
  is_digit c = true ->
  inferDataType (VString (c :: s)) key am
  = Ok (Some (if (140 <? List.length (c :: s))%nat then DataTypes_STRING_MAX
              else DataTypes_STRING), am).
Proof.
  intros Hc. rewrite inferDataType_string.
  assert (E : parseInt_isNaN (c :: s) = false).
  { unfold is_digit in Hc. apply andb_true_iff in Hc as [H1 H2].
    apply N.leb_le in H1, H2.
    assert (D : (c = 48 \/ c = 49 \/ c = 50 \/ c = 51 \/ c = 52 \/ c = 53
                 \/ c = 54 \/ c = 55 \/ c = 56 \/ c = 57)%N) by lia.
    repeat (destruct D as [->|D]; [reflexivity|]). subst c. reflexivity. }
  rewrite E, andb_false_r. reflexivity.
Qed.

(** An array is serialized as a long string exactly when its first element
    is truthy and not an object; otherwise it goes through [register]. *)
Lemma inferDataType_array elems key am :
  inferDataType (VArray elems) key am =
  if stuffable elems then Ok (Some DataTypes_STRING_MAX, am)
  else match register (js "1:n") elems (toCamelCase key) am with
       | Ok am' => Ok (Some DataTypes_NESTED, am')
       | Throw e => Throw e
       end.
Proof. reflexivity. Qed.

End Classifier.

(** C5. DateTime classification guard, at the string 2020-01-01: the engine
    parses it as a date and it is not a plain integer, yet [parseInt] reads
    its leading digits as 2020, the guard takes it for an integer and the
    classifier answers DataTypes.STRING, where a date that is not an integer
    should be tagged DataTypes.DATE. *)
Theorem iso_date_is_tagged_string :
  sample_dateParses (js "2020-01-01") = true
  /\ is_plain_integer (js "2020-01-01") = false
  /\ parseInt10 (js "2020-01-01") = Some 2020%Z
  /\ inferDataType (host := sampleHost) (VString (js "2020-01-01"))
       (js "born") []
     = Ok (Some DataTypes_STRING, []).
Proof. repeat split; reflexivity. Qed.

(** The guard as worded fails at that string. *)
Lemma iso_date_breaks_worded_guard :
  ~ datetime_guard_as_worded (host := sampleHost) (js "2020-01-01").
Proof.
  intros H.
  destruct (H (js "born") [] (Some DataTypes_STRING) [] eq_refl) as [_ Hdate].
  assert (E : Some DataTypes_STRING = Some DataTypes_DATE)
    by (apply Hdate; split; reflexivity).
  discriminate E.
Qed.

(** A date that does not start with a digit reaches the DATE branch. *)
Lemma long_date_is_tagged_date :
  inferDataType (host := sampleHost) (VString (js "January 1, 2020"))
    (js "born") []
  = Ok (Some DataTypes_DATE, []).
Proof. reflexivity. Qed.

(** C3. Scalar-array collapsing, at the array of numbers 0, 1, 2 under the
    key scores: its first element is falsy, so the classifier registers a
    1:n association fed with the three numbers and answers
    DataTypes.NESTED, where a non-empty array of scalars should be tagged
    DataTypes.STRING('MAX') and register nothing. *)
Theorem falsy_first_element_registers :
  stuffable [num 0; num 1; num 2] = false
  /\ inferDataType (host := sampleHost) (VArray [num 0; num 1; num 2])
       (js "scores") []
     = Ok (Some DataTypes_NESTED,
           [(js "scores",
             {| name := js "scores"; relation := js "1:n";
                examples := [num 0; num 1; num 2] |})]).
Proof. split; reflexivity. Qed.

(** The same array with a truthy first element is collapsed. *)
Lemma truthy_first_element_collapses :
  inferDataType (host := sampleHost) (VArray [num 1; num 0; num 2])
    (js "scores") []
  = Ok (Some DataTypes_STRING_MAX, []).
Proof. reflexivity. Qed.

(** C9. Totality of classification, at a record whose key is length and
    whose value is an object: [associatedModels] is an array, its [length]
    is 0 and so falsy, and assigning the new entry to it throws a
    RangeError; the first loop throws with it. *)
Theorem classification_throws_on_length :
  inferDataType (host := sampleHost) (VObject [prop "value" (num 3)])
    (js "length") []
  = Throw RangeError
  /\ scanExamples (host := sampleHost)
       [VObject [prop "id" (num 1);
                 prop "length" (VObject [prop "value" (num 3)])]]
     = Throw RangeError.
Proof. split; reflexivity. Qed.

(** A key that names a method of arrays makes the push throw a TypeError. *)
Lemma classification_throws_on_builtin :
  inferDataType (host := sampleHost) (VObject [prop "x" (num 3)])
    (js "constructor") []
  = Throw TypeError.
Proof. reflexivity. Qed.

(** On every host, a nested value under a key that canonicalizes to length
    throws when no association has an index for a name. *)
Lemma length_key_throws {host : Host} (props : list (jsstring * value))
  (key : jsstring) :
  toCamelCase key = js "length" ->
  inferDataType (VObject props) key [] = Throw RangeError.
Proof. intros E. simpl. unfold register, amGet. rewrite E. reflexivity. Qed.

(** Away from those keys the classifier returns for every value: a key
    that is already registered, or one that is neither length nor a name
    that arrays inherit, never makes it throw. *)
Lemma inferDataType_total {host : Host} (v : value) (key : jsstring)
  (am : list (jsstring * associatedModel)) :
  assoc (toCamelCase key) am <> None
  \/ (eqb_js (toCamelCase key) (js "length") = false
      /\ arrayProto (toCamelCase key) = false) ->
  exists tag am', inferDataType v key am = Ok (tag, am').
Proof.
  intros Hkey.
  assert (Hreg : forall rel pushed,
             exists am', register rel pushed (toCamelCase key) am = Ok am').
  { intros rel pushed. unfold register, amGet.
    destruct (assoc (toCamelCase key) am) as [m|]; [eexists; reflexivity|].
    destruct Hkey as [Hkey|[-> ->]]; [congruence|]. eexists; reflexivity. }
  destruct v; simpl; try (eexists; eexists; reflexivity).
  - destruct (isInt n); eexists; eexists; reflexivity.
  - destruct (dateParses s && parseInt_isNaN s);
      [|destruct (140 <? List.length s)]; eexists; eexists; reflexivity.
  - destruct (stuffable elems); [eexists; eexists; reflexivity|].
    destruct (Hreg (js "1:n") elems) as [am' E]. simpl in E. rewrite E.
    eexists; eexists; reflexivity.
  - destruct (Hreg (js "1:1") [VObject props]) as [am' E]. simpl in E.
    rewrite E. eexists; eexists; reflexivity.
Qed.

(** A key inherited from [Object.prototype] whose value is [null] is stored
    with an undefined type, not with the placeholder. *)
Lemma inherited_key_has_no_placeholder :
  scanExamples (host := sampleHost) [VObject [prop "constructor" VNull]]
  = Ok ({| own := [(js "constructor",
                    {| type := None; field := js "constructor" |})];
           proto := None |}, []).
Proof. reflexivity. Qed.

(** ** The merger *)

Section Merger.
Context {host : Host}.
Implicit Types (body : object field_desc)
  (am : list (jsstring * associatedModel))
  (st : object field_desc * list (jsstring * associatedModel))
  (entry : jsstring * value).

Lemma clean_empty : clean empty_object.
Proof. split; simpl; [tauto|discriminate]. Qed.

Lemma bodyGet_not_special body k :
  clean body ->
  includes specialTypes (property_type (bodyGet body k)) = false.
Proof.
  intros [Hown Hproto]. unfold bodyGet.
  destruct (assoc k (own body)) as [d|] eqn:E.
  - simpl. apply assoc_In in E. eauto.
  - destruct (proto body) as [p|] eqn:Ep.
    + destruct (eqb_js k (js "type")); [destruct (type p); reflexivity|].
      destruct (eqb_js k (js "field")); [reflexivity|].
      destruct (eqb_js k proto_key); [simpl; eauto|].
      destruct (objectProto k); reflexivity.
    + destruct (objectProto k); reflexivity.
Qed.

(** On a clean body the guard on [specialTypes] never holds: every
    observation is classified and stored. *)
Lemma observe_clean_eq body am key v :
  clean body ->
  observe (body, am) (key, v) =
  match inferDataType v key am with
  | Ok (tag, am') =>
      Ok (objSet body (toCamelCase key)
            {| type := mergedType body (toCamelCase key) tag; field := key |},
          am')
  | Throw e => Throw e
  end.
Proof.
  intros Hc. unfold observe.
  rewrite bodyGet_not_special by exact Hc. rewrite andb_false_r.
  destruct (inferDataType v key am) as [[tag am']|e] eqn:E; simpl; [|reflexivity].
  erewrite inferDataType_or_else by exact E. reflexivity.
Qed.

Lemma objSet_In {A} (o : object A) k a p :
  In p (own (objSet o k a)) -> In p (own o) \/ p = (k, a).
Proof.
  unfold objSet. destruct (assoc k (own o)); simpl.
  - apply assoc_set_In.
  - destruct (eqb_js k proto_key && objectProto k); simpl; [tauto|].
    rewrite in_app_iff. simpl. intuition.
Qed.

Lemma objSet_proto {A} (o : object A) k a p :
  proto (objSet o k a) = Some p -> proto o = Some p \/ p = a.
Proof.
  unfold objSet. destruct (assoc k (own o)); simpl; [tauto|].
  destruct (eqb_js k proto_key && objectProto k); simpl; [|tauto].
  intros [= ->]. now right.
Qed.

Lemma observe_clean body am entry body' am' :
  clean body -> observe (body, am) entry = Ok (body', am') -> clean body'.
Proof.
  destruct entry as [key v]. intros Hc. rewrite observe_clean_eq by exact Hc.
  destruct (inferDataType v key am) as [[tag am1]|e] eqn:E; [|discriminate].
  intros [= <- _].
  assert (Hnew : includes specialTypes
                   (mergedType body (toCamelCase key) tag) = false).
  { unfold mergedType. destruct tag as [t|].
    - eapply inferDataType_not_special; exact E.
    - destruct (property_truthy _); [|reflexivity].
      now apply bodyGet_not_special. }
  destruct Hc as [Hown Hproto]. split.
  - intros k d Hin. apply objSet_In in Hin as [Hin|Hin]; [eauto|].
    injection Hin as -> ->. exact Hnew.
  - intros p Hp. apply objSet_proto in Hp as [Hp| ->]; eauto.
Qed.

Lemma forEach_app {S A} (f : S -> A -> result S) (l1 l2 : list A) (s : S) :
  forEach f (l1 ++ l2) s = (s' <- forEach f l1 s ;; forEach f l2 s').
Proof.
  revert s. induction l1 as [|a l1 IH]; intros s; simpl; [reflexivity|].
  destruct (f s a); simpl; [apply IH|reflexivity].
Qed.

(** The two nested loops visit the observations one after the other. *)
Lemma forEach_observeExample exs st st' :
  forEach observeExample exs st = Ok st' ->
  exists obs, observations exs = Ok obs /\ forEach observe obs st = Ok st'.
Proof.
  revert st. induction exs as [|example exs IH]; intros st; simpl.
  - intros [= <-]. exists []. split; reflexivity.
  - unfold observeExample at 1.
    destruct (Object_entries example) as [entries|e]; simpl; [|discriminate].
    destruct (forEach observe entries st) as [st1|e] eqn:E1; simpl;
      [|discriminate].
    intros H. apply IH in H as [obs [Hobs Hrun]].
    exists (entries ++ obs). rewrite Hobs. simpl. split; [reflexivity|].
    rewrite forEach_app, E1. exact Hrun.
Qed.

(** Induction over the first loop: a property of the state and of the
    observations seen so far that every stored observation maintains holds
    at the end. *)
Lemma forEach_observe_ind
  (P : jsstring * value -> Prop)
  (I : object field_desc * list (jsstring * associatedModel)
       -> list (jsstring * value) -> Prop) :
  (forall st seen entry st',
      clean (fst st) -> P entry -> I st seen ->
      observe st entry = Ok st' -> I st' (seen ++ [entry])) ->
  forall obs st seen st',
    Forall P obs -> clean (fst st) -> I st seen ->
    forEach observe obs st = Ok st' ->
    I st' (seen ++ obs) /\ clean (fst st').
Proof.
  intros Hstep. induction obs as [|entry obs IH]; intros st seen st' HP Hc HI.
  - simpl. intros [= <-]. rewrite app_nil_r. now split.
  - simpl. destruct (observe st entry) as [st1|e] eqn:E; simpl; [|discriminate].
    intros Hrun. inversion HP as [|? ? Hentry Hrest]; subst.
    assert (Hc1 : clean (fst st1)).
    { destruct st as [body am], st1 as [body1 am1]. simpl in *.
      eapply observe_clean; eassumption. }
    specialize (IH st1 (seen ++ [entry]) st' Hrest Hc1
                  (Hstep _ _ _ _ Hc Hentry HI E) Hrun).
    now rewrite <- app_assoc in IH.
Qed.

Lemma scanExamples_ind
  (P : jsstring * value -> Prop)
  (I : object field_desc * list (jsstring * associatedModel)
       -> list (jsstring * value) -> Prop) :
  I (empty_object, []) [] ->
  (forall st seen entry st',
      clean (fst st) -> P entry -> I st seen ->
      observe st entry = Ok st' -> I st' (seen ++ [entry])) ->
  forall exs st,
    scanExamples exs = Ok st ->
    exists obs,
      observations exs = Ok obs
      /\ (Forall P obs -> I st obs /\ clean (fst st)).
Proof.
  intros H0 Hstep exs st Hscan.
  unfold scanExamples in Hscan.
  apply forEach_observeExample in Hscan as [obs [Hobs Hrun]].
  exists obs. split; [assumption|]. intros HP.
  exact (forEach_observe_ind P I Hstep obs (empty_object, []) [] st HP
           clean_empty H0 Hrun).
Qed.

End Merger.

(** ** Stripping nested fields *)

Section Strip.
Context {host : Host}.

Lemma is_nested_false (d : field_desc) :
  is_nested d = false <-> type d <> Some DataTypes_NESTED.
Proof.
  unfold is_nested. destruct (type d) as [t|]; [|split; congruence].
  split.
  - intros H [= ->]. now rewrite eqb_js_refl in H.
  - intros H. apply eqb_js_neq. congruence.
Qed.

Lemma strip_fold (L : list (jsstring * field_desc)) :
  forall b : object field_desc,
    let b' :=
      fold_left
        (fun b p =>
           if is_nested (snd p)
           then {| own := assoc_remove (fst p) (own b); proto := proto b |}
           else b) L b in
    (forall k d, assoc k (own b') = Some d -> assoc k (own b) = Some d)
    /\ (NoDup (map fst (own b)) -> NoDup (map fst (own b')))
    /\ (forall k d, In (k, d) (own b') ->
          In (k, d) (own b)
          /\ forall d', In (k, d') L -> is_nested d' = false).
Proof.
  induction L as [|[k0 d0] L IH]; intros b; simpl.
  - repeat split; tauto.
  - destruct (is_nested d0) eqn:E.
    + destruct (IH {| own := assoc_remove k0 (own b); proto := proto b |})
        as [H1 [H2 H3]]. simpl in *.
      split; [|split].
      * intros k d H. apply H1 in H. now apply assoc_remove_assoc in H.
      * intros H. apply H2. now apply assoc_remove_NoDup.
      * intros k d H. apply H3 in H as [Hin Hrest].
        apply assoc_remove_In in Hin as [Hin Hne]. simpl in Hne.
        split; [assumption|].
        intros d' [[= <- _]|H']; [congruence|now apply Hrest].
    + destruct (IH b) as [H1 [H2 H3]]. split; [|split]; try assumption.
      intros k d H. apply H3 in H as [Hin Hrest]. split; [assumption|].
      intros d' [[= _ <-]|H']; [assumption|now apply Hrest].
Qed.

Lemma stripNested_assoc (body : object field_desc) k d :
  assoc k (own (stripNested body)) = Some d -> assoc k (own body) = Some d.
Proof. apply (strip_fold (ownProperties (own body)) body). Qed.

Lemma stripNested_NoDup (body : object field_desc) :
  NoDup (map fst (own body)) -> NoDup (map fst (own (stripNested body))).
Proof. apply (strip_fold (ownProperties (own body)) body). Qed.

(** After the second loop no own entry is typed DataTypes.NESTED. *)
Lemma stripNested_spec (body : object field_desc) k d :
  In (k, d) (own (stripNested body)) ->
  In (k, d) (own body) /\ type d <> Some DataTypes_NESTED.
Proof.
  intros H.
  apply (strip_fold (ownProperties (own body)) body) in H as [Hin Hrest].
  split; [assumption|]. apply is_nested_false. apply (Hrest d).
  now apply ownProperties_In.
Qed.

End Strip.

(** ** What the first loop stores *)

Section Fields.
Context {host : Host}.

Lemma lastSpelling_snoc ck (seen : list (jsstring * value)) entry :
  lastSpelling ck (seen ++ [entry]) =
  if eqb_js (toCamelCase (fst entry)) ck then Some (fst entry)
  else lastSpelling ck seen.
Proof. unfold lastSpelling. now rewrite fold_left_app. Qed.

Lemma NoDup_snoc {A} (l : list A) (a : A) :
  NoDup l -> ~ In a l -> NoDup (l ++ [a]).
Proof.
  intros Hl Ha. apply NoDup_app; [assumption|repeat constructor; tauto|].
  intros x Hx [<-|[]]. contradiction.
Qed.

Lemma objSet_NoDup {A} (o : object A) k a :
  NoDup (map fst (own o)) -> NoDup (map fst (own (objSet o k a))).
Proof.
  intros H. unfold objSet. destruct (assoc k (own o)) eqn:E; simpl.
  - now rewrite (assoc_set_keys _ _ a _ E).
  - destruct (eqb_js k proto_key && objectProto k); simpl; [assumption|].
    rewrite map_app. simpl. apply NoDup_snoc; [assumption|].
    now apply assoc_None_not_In.
Qed.

(** After [o[k] = a] the own properties other than [k] are as before, and
    [k], when it is an own property, holds [a]. *)
Lemma objSet_assoc {A} (o : object A) k a k' a' :
  assoc k' (own (objSet o k a)) = Some a' ->
  (k' = k /\ a' = a) \/ (k' <> k /\ assoc k' (own o) = Some a').
Proof.
  unfold objSet. destruct (eqb_js k' k) eqn:Ek.
  - apply eqb_js_eq in Ek. subst k'.
    destruct (assoc k (own o)) eqn:E; simpl.
    + rewrite (assoc_set_same _ _ a _ E). intros [= <-]. now left.
    + destruct (eqb_js k proto_key && objectProto k); simpl.
      * rewrite E. discriminate.
      * rewrite (assoc_app_absent _ _ a E). intros [= <-]. now left.
  - apply eqb_js_neq in Ek. intros H. right. split; [assumption|].
    destruct (assoc k (own o)) eqn:E; simpl in H.
    + now rewrite assoc_set_other in H.
    + destruct (eqb_js k proto_key && objectProto k); simpl in H;
        [assumption|now rewrite assoc_app_other in H].
Qed.

Lemma objSet_overwrites {A} (o : object A) k a old :
  assoc k (own o) = Some old ->
  assoc k (own (objSet o k a)) = Some a
  /\ map fst (own (objSet o k a)) = map fst (own o).
Proof.
  intros E. unfold objSet. rewrite E. simpl. split.
  - exact (assoc_set_same _ _ a _ E).
  - exact (assoc_set_keys _ _ a _ E).
Qed.

(** The spelling stored in [body]: when the first loop completes, [body]
    has one entry per canonical name and the [field] of each entry is the
    raw key of the last observation whose key canonicalizes to that name. *)
Lemma scanExamples_spelling (exs : list value) (body : object field_desc)
  (am : list (jsstring * associatedModel)) :
  scanExamples exs = Ok (body, am) ->
  exists obs,
    observations exs = Ok obs
    /\ NoDup (map fst (own body))
    /\ forall camelCasedKey d,
         assoc camelCasedKey (own body) = Some d ->
         lastSpelling camelCasedKey obs = Some (field d).
Proof.
  intros Hscan.
  destruct (scanExamples_ind (fun _ => True)
              (fun st seen =>
                 NoDup (map fst (own (fst st)))
                 /\ forall ck d, assoc ck (own (fst st)) = Some d ->
                                 lastSpelling ck seen = Some (field d)))
    with (exs := exs) (st := (body, am)) as [obs [Hobs Hinv]];
    [| |assumption|].
  - simpl. split; [constructor|discriminate].
  - intros [b a] seen [key v] [b' a'] Hc _ [Hnd Hlast] Hobs.
    simpl in Hc, Hnd, Hlast |- *.
    rewrite observe_clean_eq in Hobs by exact Hc.
    destruct (inferDataType v key a) as [[tag a1]|e]; [|discriminate].
    injection Hobs as <- <-. split; [now apply objSet_NoDup|].
    intros ck d Hd. rewrite lastSpelling_snoc. simpl.
    apply objSet_assoc in Hd as [[-> ->]|[Hne Hd]].
    + now rewrite eqb_js_refl.
    + replace (eqb_js (toCamelCase key) ck) with false
        by (symmetry; apply eqb_js_neq; congruence).
      now apply Hlast.
  - exists obs. split; [assumption|].
    destruct Hinv as [H _]; [apply Forall_forall; trivial|]. exact H.
Qed.

(** Two spellings of one canonical name: the later record's spelling is the
    one stored, in a single entry. *)
Lemma last_spelling_example :
  scanExamples (host := sampleHost) two_spellings
  = Ok ({| own := [(js "firstName",
                    {| type := Some DataTypes_STRING;
                       field := js "firstName" |})];
           proto := None |}, []).
Proof. reflexivity. Qed.

End Fields.

(** ** The sticky type *)

(** The tag of long strings is not the entry of [specialTypes]: the two
    differ in their quotes. *)
Lemma long_string_tag_not_special :
  includes specialTypes (Some DataTypes_STRING_MAX) = false.
Proof. reflexivity. Qed.

(** C1. Sticky-type monotonicity, at two records for the field bio, a string
    of 200 characters and then a short one: the first record tags the field
    DataTypes.STRING('MAX'), the guard on [specialTypes] does not recognize
    that tag, and the second record replaces it by DataTypes.STRING. *)
Theorem sticky_tag_overwritten :
  scanExamples (host := sampleHost)
    [VObject [prop "bio" (VString (repeat 97%N 200))]]
  = Ok ({| own := [(js "bio", {| type := Some DataTypes_STRING_MAX;
                                 field := js "bio" |})];
           proto := None |}, [])
  /\ scanExamples (host := sampleHost)
       [VObject [prop "bio" (VString (repeat 97%N 200))];
        VObject [prop "bio" (str "short")]]
     = Ok ({| own := [(js "bio", {| type := Some DataTypes_STRING;
                                    field := js "bio" |})];
              proto := None |}, []).
Proof. split; reflexivity. Qed.

(** In the other order the long string comes last and its tag stays. *)
Lemma sticky_tag_order_dependent :
  scanExamples (host := sampleHost)
    [VObject [prop "bio" (str "short")];
     VObject [prop "bio" (VString (repeat 97%N 200))]]
  = Ok ({| own := [(js "bio", {| type := Some DataTypes_STRING_MAX;
                                 field := js "bio" |})];
           proto := None |}, []).
Proof. reflexivity. Qed.

(** ** Preservation of known types *)

Section Preservation.
Context {host : Host}.

(** C4, amended. For a field that has an entry, an observation that the
    classifier answers with [null] leaves the stored type as it was; an
    observation answered with DataTypes.NESTED replaces the stored type by
    that tag (unless the stored type is listed in [specialTypes], in which
    case nothing is stored). *)
Theorem null_keeps_type_nested_replaces
  (st : object field_desc * list (jsstring * associatedModel))
  (entry : jsstring * value) (d : field_desc) :
  assoc (toCamelCase (fst entry)) (own (fst st)) = Some d ->
  (forall am',
      inferDataType (snd entry) (fst entry) (snd st) = Ok (None, am') ->
      exists st',
        observe st entry = Ok st'
        /\ option_map type (assoc (toCamelCase (fst entry)) (own (fst st')))
           = Some (type d))
  /\ (forall am',
        inferDataType (snd entry) (fst entry) (snd st)
        = Ok (Some DataTypes_NESTED, am') ->
        includes specialTypes (type d) = false ->
        exists st',
          observe st entry = Ok st'
          /\ option_map type (assoc (toCamelCase (fst entry)) (own (fst st')))
             = Some (Some DataTypes_NESTED)).
Proof.
  destruct st as [body am], entry as [key v]. simpl. intros Hd.
  assert (Hget : bodyGet body (toCamelCase key) = PDesc d).
  { unfold bodyGet. now rewrite Hd. }
  split.
  - intros am' Hinf. unfold observe. rewrite Hget. simpl.
    destruct (includes specialTypes (type d)).
    + exists (body, am). simpl. rewrite Hd. split; reflexivity.
    + rewrite Hinf. simpl. eexists. split; [reflexivity|]. simpl.
      destruct (objSet_overwrites body (toCamelCase key)
                  {| type := type d; field := key |} d Hd) as [-> _].
      reflexivity.
  - intros am' Hinf Hspecial. unfold observe. rewrite Hget. simpl.
    rewrite Hspecial, Hinf. simpl. eexists. split; [reflexivity|]. simpl.
    destruct (objSet_overwrites body (toCamelCase key)
                {| type := Some DataTypes_NESTED; field := key |} d Hd)
      as [-> _].
    reflexivity.
Qed.

End Preservation.

(** A [null] under a typed key keeps DataTypes.INTEGER. *)
Lemma null_keeps_type_nested_replaces_witness :
  exists st',
    observe (host := sampleHost) known_integer (prop "a" VNull) = Ok st'
    /\ option_map type (assoc (js "a") (own (fst st')))
       = Some (Some DataTypes_INTEGER).
Proof.
  exact (proj1 (null_keeps_type_nested_replaces (host := sampleHost)
                  known_integer (prop "a" VNull)
                  {| type := Some DataTypes_INTEGER; field := js "a" |}
                  eq_refl) [] eq_refl).
Defined.

(** C4 as stated fails: the classifier answers DataTypes.NESTED for a nested
    object and the merger stores that tag over DataTypes.INTEGER. *)
Lemma nested_observation_erases_type :
  ~ preserves_known_type (host := sampleHost) known_integer nested_observation.
Proof.
  intros H.
  destruct (H {| type := Some DataTypes_INTEGER; field := js "a" |}
              (Some DataTypes_NESTED)
              [(js "a", {| name := js "a"; relation := js "1:1";
                           examples := [VObject [prop "x" (num 1)]] |})]
              eq_refl eq_refl (or_intror eq_refl)) as [st' [Hobs Htype]].
  vm_compute in Hobs. injection Hobs as <-. vm_compute in Htype.
  discriminate.
Qed.

(** End to end: the field typed by the first record is absent from the
    written body after a later nested observation. *)
Lemma nested_observation_drops_field :
  exists body am,
    scanExamples (host := sampleHost)
      [VObject [prop "a" (num 1)];
       VObject [prop "a" (VObject [prop "x" (num 1)])]] = Ok (body, am)
    /\ assoc (js "a") (own body)
       = Some {| type := Some DataTypes_NESTED; field := js "a" |}
    /\ own (stripNested body) = [].
Proof. eexists. eexists. split; [reflexivity|]. split; reflexivity. Qed.

(** ** Cardinality of associations *)

Section Cardinality.
Context {host : Host}.

Lemma register_spec rel pushed ck (am am1 : list (jsstring * associatedModel)) :
  register rel pushed ck am = Ok am1 ->
  (assoc ck am = None
   /\ am1 = am ++ [(ck, {| name := ck; relation := rel;
                           examples := pushed |})])
  \/ (exists m,
        assoc ck am = Some m
        /\ am1 = assoc_set ck {| name := name m; relation := relation m;
                                 examples := examples m ++ pushed |} am).
Proof.
  unfold register, amGet. destruct (assoc ck am) as [m|] eqn:E.
  - intros [= <-]. right. now exists m.
  - destruct (eqb_js ck (js "length")).
    + destruct (array_length am =? 0)%N; discriminate.
    + destruct (arrayProto ck); [discriminate|].
      intros [= <-]. now left.
Qed.

Lemma inferDataType_registers v key (am am1 : list (jsstring * associatedModel))
  tag :
  inferDataType v key am = Ok (tag, am1) ->
  match registers v with
  | Some rel => register rel (pushedExamples v) (toCamelCase key) am = Ok am1
  | None => am1 = am
  end.
Proof.
  destruct v; simpl; try (intros [= _ <-]; reflexivity).
  - destruct (isInt n); intros [= _ <-]; reflexivity.
  - destruct (dateParses s && parseInt_isNaN s);
      [|destruct (140 <? List.length s)]; intros [= _ <-]; reflexivity.
  - destruct (stuffable elems); [intros [= _ <-]; reflexivity|].
    destruct (register _ _ _ _); simpl; [|discriminate].
    intros [= _ <-]; reflexivity.
  - destruct (register _ _ _ _); simpl; [|discriminate].
    intros [= _ <-]; reflexivity.
Qed.

Lemma firstRegistration_snoc ck (seen : list (jsstring * value)) key v :
  firstRegistration ck (seen ++ [(key, v)]) =
  match firstRegistration ck seen with
  | Some rel => Some rel
  | None => if eqb_js (toCamelCase key) ck then registers v else None
  end.
Proof.
  induction seen as [|[k0 v0] seen IH]; simpl.
  - destruct (eqb_js (toCamelCase key) ck); [|reflexivity].
    destruct (registers v); reflexivity.
  - destruct (eqb_js (toCamelCase k0) ck); [|exact IH].
    destruct (registers v0); [reflexivity|exact IH].
Qed.

(** C2, amended. Within one job, when the first loop completes, a canonical
    key has an association exactly when one of its observations registers
    one, and the cardinality of that association is the one of the first
    such observation: 1:1 when that value is a plain object, 1:n when it is
    an array that is not serialized as a string. Later observations do not
    change it. *)
Theorem first_registration_fixes_cardinality (exs : list value)
  (body : object field_desc) (am : list (jsstring * associatedModel)) :
  scanExamples exs = Ok (body, am) ->
  exists obs,
    observations exs = Ok obs
    /\ (forall camelCasedKey,
          option_map relation (assoc camelCasedKey am)
          = firstRegistration camelCasedKey obs)
    /\ (forall camelCasedKey rel,
          firstRegistration camelCasedKey obs = Some rel ->
          exists m, assoc camelCasedKey am = Some m /\ relation m = rel)
    /\ (forall camelCasedKey m,
          assoc camelCasedKey am = Some m ->
          firstRegistration camelCasedKey obs = Some (relation m)).
Proof.
  intros Hscan.
  destruct (scanExamples_ind (fun _ => True)
              (fun st seen =>
                 forall ck,
                   firstRegistration ck seen
                   = option_map relation (assoc ck (snd st))))
    with (exs := exs) (st := (body, am)) as [obs [Hobs Hinv]];
    [| |assumption|].
  - reflexivity.
  - intros [b a] seen [key v] [b' a'] Hc _ Hfirst Hobs.
    simpl in Hc, Hfirst |- *.
    rewrite observe_clean_eq in Hobs by exact Hc.
    destruct (inferDataType v key a) as [[tag a1]|e] eqn:E; [|discriminate].
    injection Hobs as _ <-. intros ck.
    rewrite firstRegistration_snoc, Hfirst.
    apply inferDataType_registers in E.
    destruct (registers v) as [rel|].
    + apply register_spec in E as [[Habs ->]|[m [Hm ->]]].
      * destruct (eqb_js (toCamelCase key) ck) eqn:Ek.
        -- apply eqb_js_eq in Ek. subst ck. rewrite Habs.
           now rewrite (assoc_app_absent _ _ _ Habs).
        -- apply eqb_js_neq in Ek.
           rewrite assoc_app_other by congruence.
           now destruct (assoc ck a).
      * destruct (eqb_js (toCamelCase key) ck) eqn:Ek.
        -- apply eqb_js_eq in Ek. subst ck. rewrite Hm.
           now rewrite (assoc_set_same _ _ _ _ Hm).
        -- apply eqb_js_neq in Ek.
           rewrite assoc_set_other by congruence.
           now destruct (assoc ck a).
    + subst a1. destruct (assoc ck a); [reflexivity|].
      now destruct (eqb_js (toCamelCase key) ck).
  - exists obs. split; [assumption|].
    destruct Hinv as [Hfirst _]; [apply Forall_forall; trivial|].
    simpl in Hfirst. split; [|split].
    + intros ck. symmetry. apply Hfirst.
    + intros ck rel Hrel. rewrite Hfirst in Hrel.
      destruct (assoc ck am) as [m|]; [|discriminate].
      exists m. split; [reflexivity|]. now injection Hrel.
    + intros ck m Hm. rewrite Hfirst, Hm. reflexivity.
Qed.

(** A field whose every observation is a plain object is 1:1. *)
Lemma always_object_is_one_to_one ck (obs : list (jsstring * value)) rel :
  (forall key v, In (key, v) obs -> toCamelCase key = ck ->
                 is_plain_object v = true) ->
  firstRegistration ck obs = Some rel -> rel = js "1:1".
Proof.
  induction obs as [|[key v] obs IH]; simpl; [discriminate|].
  intros Hall. destruct (eqb_js (toCamelCase key) ck) eqn:Ek.
  - apply eqb_js_eq in Ek.
    assert (Hv : is_plain_object v = true) by (apply (Hall key); auto).
    destruct v; try discriminate. simpl. congruence.
  - apply IH. intros key' v' Hin. apply Hall. now right.
Qed.

(** A field that is observed, and as a plain object every time, registers
    a 1:1 association. *)
Lemma always_object_registers ck (obs : list (jsstring * value)) :
  (exists key v, In (key, v) obs /\ toCamelCase key = ck) ->
  (forall key v, In (key, v) obs -> toCamelCase key = ck ->
                 is_plain_object v = true) ->
  firstRegistration ck obs = Some (js "1:1").
Proof.
  induction obs as [|[key v] obs IH]; simpl.
  - intros [k0 [v0 [[] _]]].
  - intros Hex Hall. destruct (eqb_js (toCamelCase key) ck) eqn:Ek.
    + apply eqb_js_eq in Ek.
      assert (Hv : is_plain_object v = true) by (apply (Hall key); auto).
      destruct v; try discriminate. reflexivity.
    + apply eqb_js_neq in Ek. apply IH.
      * destruct Hex as [k0 [v0 [[[= -> ->]|Hin] Hk]]]; [contradiction|].
        now exists k0, v0.
      * intros key' v' Hin. apply Hall. now right.
Qed.

End Cardinality.

Lemma first_registration_fixes_cardinality_witness :
  exists body am,
    scanExamples (host := sampleHost) object_then_array = Ok (body, am)
    /\ exists obs,
         observations object_then_array = Ok obs
         /\ (forall camelCasedKey,
               option_map relation (assoc camelCasedKey am)
               = firstRegistration (host := sampleHost) camelCasedKey obs)
         /\ (forall camelCasedKey rel,
               firstRegistration (host := sampleHost) camelCasedKey obs
               = Some rel ->
               exists m, assoc camelCasedKey am = Some m /\ relation m = rel)
         /\ (forall camelCasedKey m,
               assoc camelCasedKey am = Some m ->
               firstRegistration (host := sampleHost) camelCasedKey obs
               = Some (relation m)).
Proof.
  eexists. eexists. split; [reflexivity|].
  exact (first_registration_fixes_cardinality (host := sampleHost)
           object_then_array _ _ eq_refl).
Defined.

(** The field pet of the two records has an association, and it is 1:1. *)
Lemma object_then_array_registers :
  exists body m,
    scanExamples (host := sampleHost) object_then_array
    = Ok (body, [(js "pet", m)])
    /\ relation m = js "1:1"
    /\ firstRegistration (host := sampleHost) (js "pet")
         [prop "pet" (VObject [prop "n" (num 1)]);
          prop "pet" (VArray [VObject [prop "n" (num 2)]])]
       = Some (js "1:1").
Proof. eexists. eexists. split; [reflexivity|]. split; reflexivity. Qed.

(** C2 as stated fails: the field pet is an array of structured elements in
    the second record, yet its association is 1:1, the cardinality of the
    first record. *)
Lemma object_then_array_is_one_to_one :
  ~ cardinality_determinism (host := sampleHost) object_then_array.
Proof.
  intros H.
  destruct (H _ _ _ (js "pet") _ eq_refl eq_refl eq_refl) as [_ Hmany].
  assert (E : js "1:1" = js "1:n").
  { apply Hmany.
    exists (js "pet"), (VArray [VObject [prop "n" (num 2)]]).
    split; [right; left; reflexivity|]. split; reflexivity. }
  discriminate E.
Qed.

(** With the records in the other order the same field is 1:n. *)
Lemma array_then_object_is_one_to_many :
  scanExamples (host := sampleHost) (rev object_then_array)
  = Ok ({| own := [(js "pet", {| type := Some DataTypes_NESTED;
                                 field := js "pet" |})];
           proto := None |},
        [(js "pet",
          {| name := js "pet"; relation := js "1:n";
             examples := [VObject [prop "n" (num 2)];
                          VObject [prop "n" (num 1)]] |})]).
Proof. reflexivity. Qed.

(** ** The recursive job *)

Section Job.
Context {host : Host}.

Lemma generateOthers_files (Q : file -> Prop)
  (job : jsstring -> list value -> outcome job_result) :
  (forall n exs a b fs, job n exs = Done (a, b, fs) -> Forall Q fs) ->
  forall entries infos files,
    generateOthers job entries = Done (infos, files) -> Forall Q files.
Proof.
  intros Hjob. induction entries as [|[key m] entries IH]; simpl.
  - intros infos files [= _ <-]. constructor.
  - intros infos files.
    destruct (job (toCamelCase key) (examples m)) as [[[a b] fs]|e|] eqn:E;
      try discriminate.
    destruct (generateOthers job entries) as [[infos' files']|e|] eqn:E';
      try discriminate.
    intros [= _ <-]. apply Forall_app. split.
    + exact (Hjob _ _ _ _ _ E).
    + exact (IH _ _ eq_refl).
Qed.

(** C6. Structured-stripping invariant: when a job completes, the first
    file it wrote is the one of its own model, and no entry of the field map
    of any file written by the job or by the jobs it started is typed
    DataTypes.NESTED. *)
Theorem no_nested_field_is_written (fuel : nat) (modelName : jsstring)
  (exs : list value) (first : modelInfo) (others : list modelInfo)
  (files : list file) :
  generateSequelizeModel fuel modelName exs = Done (first, others, files) ->
  (exists body rest, files = (modelName, body) :: rest)
  /\ Forall (fun f : file =>
               forall k d, In (k, d) (own (snd f)) ->
                           type d <> Some DataTypes_NESTED) files.
Proof.
  revert modelName exs first others files.
  induction fuel as [|fuel IH]; intros modelName exs first others files;
    simpl; [discriminate|].
  destruct (scanExamples exs) as [[body am]|e]; [|discriminate].
  destruct (generateOthers (generateSequelizeModel fuel) (ownProperties am))
    as [[infos fs]|e|] eqn:E; try discriminate.
  intros [= _ _ <-]. split; [now exists (stripNested body), fs|].
  constructor.
  - simpl. intros k d Hin. now apply stripNested_spec in Hin.
  - eapply generateOthers_files; [|exact E].
    intros n exs' a b fs' H. now apply IH in H.
Qed.

Lemma generateOthers_fuel
  (job : jsstring -> list value -> outcome job_result) entries :
  (forall key m, In (key, m) entries ->
                 job (toCamelCase key) (examples m) <> OutOfFuel) ->
  generateOthers job entries <> OutOfFuel.
Proof.
  induction entries as [|[key m] entries IH]; simpl; [discriminate|].
  intros H.
  destruct (job (toCamelCase key) (examples m)) as [[[a b] fs]|e|] eqn:E.
  - destruct (generateOthers job entries) as [[infos' files']|e|] eqn:E';
      try discriminate.
    exfalso. apply IH; [|reflexivity]. intros k m' Hin. apply H. now right.
  - discriminate.
  - exfalso. apply (H key m); [now left|assumption].
Qed.

Lemma nesting_depth_In v (exs : list value) :
  In v exs -> nesting_depth v <= batch_depth exs.
Proof.
  induction exs as [|e exs IH]; simpl; [tauto|].
  intros [->|H]; [lia|]. apply IH in H. lia.
Qed.

Lemma nesting_depth_props k v (props : list (jsstring * value)) :
  In (k, v) props -> S (nesting_depth v) <= nesting_depth (VObject props).
Proof.
  simpl. induction props as [|p props IH]; simpl; [tauto|].
  intros [->|H]; [simpl; lia|]. apply IH in H. lia.
Qed.

Lemma nesting_depth_elems v (elems : list value) :
  In v elems -> S (nesting_depth v) <= nesting_depth (VArray elems).
Proof.
  intros H. apply nesting_depth_In in H. simpl. unfold batch_depth in H. lia.
Qed.

Lemma Object_entries_depth example entries k v :
  Object_entries example = Ok entries -> In (k, v) entries ->
  nesting_depth v = 0 \/ S (nesting_depth v) <= nesting_depth example.
Proof.
  destruct example; intros H Hin; simpl in H; try discriminate;
    injection H as <-.
  - destruct Hin.
  - destruct Hin.
  - apply entries_from_In in Hin. apply in_map_iff in Hin as [c [<- _]].
    now left.
  - right. apply entries_from_In in Hin. now apply nesting_depth_elems.
  - right. apply (proj1 (ownProperties_In _ _)) in Hin.
    exact (nesting_depth_props k v props Hin).
Qed.

Lemma observations_depth (exs : list value) obs :
  observations exs = Ok obs ->
  Forall (fun entry =>
            nesting_depth (snd entry) = 0
            \/ S (nesting_depth (snd entry)) <= batch_depth exs) obs.
Proof.
  revert obs. induction exs as [|example exs IH]; simpl; intros obs.
  - intros [= <-]. constructor.
  - destruct (Object_entries example) as [entries|e] eqn:E; simpl;
      [|discriminate].
    destruct (observations exs) as [others|e]; simpl; [|discriminate].
    intros [= <-]. apply Forall_app. split.
    + apply Forall_forall. intros [k v] Hin. simpl.
      destruct (Object_entries_depth _ _ _ _ E Hin); [now left|right; lia].
    + specialize (IH _ eq_refl). eapply Forall_impl; [|exact IH].
      simpl. intros entry [H|H]; [now left|right; lia].
Qed.

Lemma batch_depth_bound (exs : list value) D :
  Forall (fun ex => S (nesting_depth ex) <= D) exs -> batch_depth exs <= pred D.
Proof.
  induction 1 as [|ex exs Hex _ IH]; simpl; lia.
Qed.

(** The examples handed to the sub models are strictly shallower than the
    batch, and a batch that starts a sub model is at least two deep. *)
Lemma scanExamples_depth (exs : list value) body am :
  scanExamples exs = Ok (body, am) ->
  forall k m, In (k, m) am ->
    2 <= batch_depth exs
    /\ Forall (fun ex => S (nesting_depth ex) <= batch_depth exs) (examples m).
Proof.
  intros Hscan.
  destruct (scanExamples_ind
              (fun entry =>
                 nesting_depth (snd entry) = 0
                 \/ S (nesting_depth (snd entry)) <= batch_depth exs)
              (fun st _ =>
                 forall k m, In (k, m) (snd st) ->
                   2 <= batch_depth exs
                   /\ Forall (fun ex => S (nesting_depth ex) <= batch_depth exs)
                        (examples m)))
    with (exs := exs) (st := (body, am)) as [obs [Hobs Hinv]];
    [| |assumption|].
  - simpl. tauto.
  - intros [b a] seen [key v] [b' a'] Hc Hv Hold Hstep k m.
    simpl in Hc, Hv, Hold |- *.
    rewrite observe_clean_eq in Hstep by exact Hc.
    destruct (inferDataType v key a) as [[tag a1]|e] eqn:E; [|discriminate].
    injection Hstep as _ <-.
    apply inferDataType_registers in E.
    destruct (registers v) as [rel|] eqn:Er; [|subst a1; apply Hold].
    assert (Hpushed : 2 <= batch_depth exs
                      /\ Forall (fun ex => S (nesting_depth ex) <= batch_depth exs)
                           (pushedExamples v)).
    { destruct v; try discriminate.
      - destruct Hv as [Hv|Hv]; [discriminate|]. split.
        + simpl in Hv. lia.
        + simpl. apply Forall_forall. intros el Hel.
          apply nesting_depth_elems in Hel. lia.
      - destruct Hv as [Hv|Hv]; [discriminate|]. split.
        + simpl in Hv. lia.
        + simpl. constructor; [exact Hv|constructor]. }
    destruct Hpushed as [H2 Hpushed].
    apply register_spec in E as [[_ ->]|[m0 [Hm0 ->]]].
    + rewrite in_app_iff. intros [Hin|[[= _ <-]|[]]]; [now apply (Hold k)|].
      simpl. now split.
    + intros Hin. apply assoc_set_In in Hin as [Hin|[= _ ->]];
        [now apply (Hold k)|].
      simpl. split; [assumption|]. apply Forall_app. split; [|assumption].
      apply assoc_In in Hm0. now apply (Hold _ _ Hm0).
  - destruct Hinv as [H _]; [now apply observations_depth|]. exact H.
Qed.

(** C8, amended. Termination: nested calls as deep as the nesting depth of
    the batch (and at least one) are enough for the job to finish, by
    returning or by throwing; more depth is never needed. *)
Theorem decomposition_terminates (fuel : nat) (modelName : jsstring)
  (exs : list value) :
  Nat.max 1 (batch_depth exs) <= fuel ->
  generateSequelizeModel fuel modelName exs <> OutOfFuel.
Proof.
  revert modelName exs.
  induction fuel as [|fuel IH]; intros modelName exs Hfuel; [lia|].
  simpl. destruct (scanExamples exs) as [[body am]|e] eqn:Hscan;
    [|discriminate].
  assert (Hothers : generateOthers (generateSequelizeModel fuel)
                      (ownProperties am) <> OutOfFuel).
  { apply generateOthers_fuel. intros key m Hin.
    apply (proj1 (ownProperties_In _ _)) in Hin.
    destruct (scanExamples_depth _ _ _ Hscan _ _ Hin) as [H2 Hdepth].
    apply batch_depth_bound in Hdepth. apply IH. lia. }
  destruct (generateOthers (generateSequelizeModel fuel) (ownProperties am))
    as [[infos fs]|e|]; [discriminate|discriminate|contradiction].
Qed.

Lemma generateOthers_ext
  (job job' : jsstring -> list value -> outcome job_result) entries :
  (forall n exs, job n exs <> OutOfFuel -> job' n exs = job n exs) ->
  generateOthers job entries <> OutOfFuel ->
  generateOthers job' entries = generateOthers job entries.
Proof.
  intros Hjob. induction entries as [|[key m] entries IH]; simpl;
    [reflexivity|].
  intros H.
  destruct (job (toCamelCase key) (examples m)) as [[[a b] fs]|e|] eqn:E.
  - rewrite Hjob, E by (rewrite E; discriminate).
    destruct (generateOthers job entries) as [[infos' files']|e|] eqn:E'.
    + rewrite IH by discriminate. reflexivity.
    + rewrite IH by discriminate. reflexivity.
    + contradiction.
  - rewrite Hjob, E by (rewrite E; discriminate). reflexivity.
  - contradiction.
Qed.

Lemma generateSequelizeModel_S (fuel : nat) modelName exs :
  generateSequelizeModel (S fuel) modelName exs =
  match scanExamples exs with
  | Throw e => Raised e
  | Ok (body, associatedModels) =>
      match generateOthers (generateSequelizeModel fuel)
              (ownProperties associatedModels) with
      | Done (otherModels, files) =>
          Done ({| model := toCamelCase modelName;
                   associations :=
                     {| one_to_many :=
                          filter (relation_is (js "1:n"))
                            (map snd (ownProperties associatedModels));
                        one_to_one :=
                          filter (relation_is (js "1:1"))
                            (map snd (ownProperties associatedModels)) |} |},
                otherModels,
                (modelName, stripNested body) :: files)
      | Raised e => Raised e
      | OutOfFuel => OutOfFuel
      end
  end.
Proof. reflexivity. Qed.

(** A job that finished within some depth gives the same outcome at any
    greater depth. *)
Lemma generateSequelizeModel_fuel_mono (fuel : nat) :
  forall modelName exs,
    generateSequelizeModel fuel modelName exs <> OutOfFuel ->
    generateSequelizeModel (S fuel) modelName exs
    = generateSequelizeModel fuel modelName exs.
Proof.
  induction fuel as [|fuel IH]; intros modelName exs H;
    [simpl in H; contradiction|].
  rewrite (generateSequelizeModel_S (S fuel)).
  rewrite (generateSequelizeModel_S fuel) in H |- *.
  destruct (scanExamples exs) as [[body am]|e]; [|reflexivity].
  rewrite (generateOthers_ext (generateSequelizeModel fuel)
             (generateSequelizeModel (S fuel))).
  - reflexivity.
  - intros n exs' Hn. now apply IH.
  - intros E. rewrite E in H. contradiction.
Qed.

End Job.

Lemma decomposition_terminates_witness :
  generateSequelizeModel (host := sampleHost) 3 (js "user") orders_example
  <> OutOfFuel.
Proof.
  apply (decomposition_terminates (host := sampleHost) 3 (js "user")
           orders_example).
  vm_compute. lia.
Defined.

(** C8 as stated fails: the batch is six levels deep and its job makes no
    nested call at all, because the array starts with a number and is
    serialized as a string. *)
Lemma recursion_shallower_than_nesting :
  batch_depth deep_scalar_array = 6
  /\ generateSequelizeModel (host := sampleHost) 1 (js "user")
       deep_scalar_array <> OutOfFuel
  /\ ~ recursion_depth_is (host := sampleHost) (batch_depth deep_scalar_array)
         (js "user") deep_scalar_array.
Proof.
  split; [reflexivity|]. split.
  - vm_compute. discriminate.
  - intros [_ H]. vm_compute in H. discriminate H.
Qed.

(** An array of objects takes one nested call for two levels of nesting. *)
Lemma orders_recursion_depth :
  batch_depth orders_example = 3
  /\ recursion_depth_is (host := sampleHost) 2 (js "user") orders_example.
Proof.
  split; [reflexivity|]. split; [vm_compute; discriminate|reflexivity].
Qed.

Lemma no_nested_field_is_written_witness :
  exists first others files,
    generateSequelizeModel (host := sampleHost) 2 (js "user") address_example
    = Done (first, others, files)
    /\ (exists body rest, files = (js "user", body) :: rest)
    /\ Forall (fun f : file =>
                 forall k d, In (k, d) (own (snd f)) ->
                             type d <> Some DataTypes_NESTED) files.
Proof.
  eexists. eexists. eexists. split; [reflexivity|].
  exact (no_nested_field_is_written (host := sampleHost) 2 (js "user")
           address_example _ _ _ eq_refl).
Defined.

(** ** The driver *)

Section Driver.
Context {host : Host}.

Lemma lastAssigned_snoc k (assigned : list (jsstring * modelInfo)) a :
  lastAssigned k (assigned ++ [a]) =
  if eqb_js (fst a) k then Some (snd a) else lastAssigned k assigned.
Proof. unfold lastAssigned. now rewrite fold_left_app. Qed.

(** Assignments to a table: each own property holds the value of the last
    assignment to its key. *)
Lemma assign_all_last (assigned : list (jsstring * modelInfo))
  (t : object modelInfo) k m :
  assoc k (own (fold_left (fun t a => objSet t (fst a) (snd a)) assigned t))
  = Some m ->
  match lastAssigned k assigned with
  | Some m' => m' = m
  | None => assoc k (own t) = Some m
  end.
Proof.
  revert m. induction assigned as [|a assigned IH] using rev_ind; intros m.
  - simpl. trivial.
  - rewrite fold_left_app, lastAssigned_snoc. simpl. intros H.
    apply objSet_assoc in H as [[-> ->]|[Hne H]].
    + now rewrite eqb_js_refl.
    + replace (eqb_js (fst a) k) with false
        by (symmetry; apply eqb_js_neq; congruence).
      now apply IH.
Qed.

Lemma assign_others (ms : list modelInfo) (t : object modelInfo) :
  fold_left (fun t m => objSet t (model m) m) ms t
  = fold_left (fun t a => objSet t (fst a) (snd a))
      (map (fun m => (model m, m)) ms) t.
Proof.
  revert t. induction ms as [|m ms IH]; intros t; simpl; [reflexivity|].
  apply IH.
Qed.

Lemma createModels_spec (fuel : nat) (inputs : list (jsstring * list value)) :
  forall r0 r,
    createModels fuel r0 inputs = Done r ->
    console r = console r0 ++ flat_map progress_lines inputs
    /\ table r = fold_left (fun t a => objSet t (fst a) (snd a))
                   (assignments fuel inputs) (table r0).
Proof.
  induction inputs as [|[modelName exs] inputs IH]; intros r0 r; simpl.
  - intros [= <-]. now rewrite app_nil_r.
  - unfold createModel.
    destruct (generateSequelizeModel fuel modelName exs)
      as [[[mainModel otherModels] files]|e|] eqn:E; simpl;
      try discriminate.
    intros H. apply IH in H as [Hc Ht]. simpl in Hc, Ht.
    split.
    + rewrite Hc, <- app_assoc. reflexivity.
    + rewrite Ht, fold_left_app. simpl. f_equal. apply assign_others.
Qed.

(** A completed run has logged progress lines only. *)
Lemma console_is_progress (fuel : nat) (inputs : list (jsstring * list value))
  (r : run) :
  createModels fuel start inputs = Done r ->
  forall line, In line (console r) -> is_progress_line line.
Proof.
  intros H. apply createModels_spec in H as [Hc _]. simpl in Hc.
  rewrite Hc. intros line Hin. apply in_flat_map in Hin as [input [_ Hin]].
  destruct Hin as [<-|[<-|[]]].
  - exists (List.length (snd input)), (fst input). now left.
  - exists 0, (fst input). now right.
Qed.

Lemma objSet_lookup {A} (o : object A) k a k' :
  sets_prototype k' = false ->
  assoc k' (own (objSet o k a))
  = if eqb_js k k' then Some a else assoc k' (own o).
Proof.
  intros Hset. unfold objSet. destruct (eqb_js k k') eqn:Ek.
  - apply eqb_js_eq in Ek. subst k'. unfold sets_prototype in Hset.
    rewrite Hset. destruct (assoc k (own o)) eqn:E; simpl.
    + exact (assoc_set_same _ _ a _ E).
    + exact (assoc_app_absent _ _ a E).
  - apply eqb_js_neq in Ek.
    destruct (assoc k (own o)) eqn:E; simpl.
    + apply assoc_set_other. congruence.
    + destruct (eqb_js k proto_key && objectProto k); simpl; [reflexivity|].
      apply assoc_app_other. congruence.
Qed.

(** Assignments to a table: a key that does not go to the [__proto__]
    setter holds the value of the last assignment to it, and what the table
    held before when there is none. *)
Lemma assign_all_lookup (assigned : list (jsstring * modelInfo))
  (t : object modelInfo) k :
  sets_prototype k = false ->
  assoc k (own (fold_left (fun t a => objSet t (fst a) (snd a)) assigned t))
  = match lastAssigned k assigned with
    | Some m => Some m
    | None => assoc k (own t)
    end.
Proof.
  intros Hset. induction assigned as [|a assigned IH] using rev_ind.
  - reflexivity.
  - rewrite fold_left_app, lastAssigned_snoc. simpl.
    rewrite (objSet_lookup _ _ _ _ Hset).
    destruct (eqb_js (fst a) k); [reflexivity|exact IH].
Qed.

(** C7, amended. Name collisions are not reported: while the driver creates
    the models of its input files and assembles the association table, it
    logs the two progress lines of each input file and nothing else, and
    the table holds, under every name that was assigned (and that does not
    go to the [__proto__] setter), the model description that was assigned
    last; earlier descriptions of that name are dropped. *)
Theorem collisions_overwrite_silently (fuel : nat)
  (inputs : list (jsstring * list value)) (r : run) :
  createModels fuel start inputs = Done r ->
  console r = flat_map progress_lines inputs
  /\ (forall line, In line (console r) -> is_progress_line line)
  /\ (forall k,
        sets_prototype k = false ->
        assoc k (own (table r)) = lastAssigned k (assignments fuel inputs))
  /\ forall k m,
       assoc k (own (table r)) = Some m ->
       lastAssigned k (assignments fuel inputs) = Some m.
Proof.
  intros H. pose proof (console_is_progress _ _ _ H) as Hlines.
  apply createModels_spec in H as [Hc Ht]. simpl in Hc, Ht.
  split; [assumption|]. split; [assumption|]. split.
  - intros k Hset. rewrite Ht, (assign_all_lookup _ _ _ Hset). simpl.
    now destruct (lastAssigned k (assignments fuel inputs)).
  - intros k m Hm. rewrite Ht in Hm. apply assign_all_last in Hm.
    destruct (lastAssigned k (assignments fuel inputs)); [congruence|].
    discriminate.
Qed.

End Driver.

Lemma collisions_overwrite_silently_witness :
  exists r,
    createModels (host := sampleHost) 3 start colliding_inputs = Done r
    /\ console r = flat_map progress_lines colliding_inputs
    /\ (forall line, In line (console r) -> is_progress_line line)
    /\ (forall k,
          sets_prototype (host := sampleHost) k = false ->
          assoc k (own (table r))
          = lastAssigned k (assignments (host := sampleHost) 3
                              colliding_inputs))
    /\ forall k m,
         assoc k (own (table r)) = Some m ->
         lastAssigned k (assignments (host := sampleHost) 3 colliding_inputs)
         = Some m.
Proof.
  eexists. split; [reflexivity|].
  exact (collisions_overwrite_silently (host := sampleHost) 3
           colliding_inputs _ eq_refl).
Defined.

(** The two files describe the model member with a 1:1 and with a 1:n
    association to pet; the table keeps the second description. *)
Lemma colliding_inputs_collide :
  has_collision (discovered (host := sampleHost) 3 colliding_inputs) = true
  /\ exists r,
       createModels (host := sampleHost) 3 start colliding_inputs = Done r
       /\ option_map (fun m => map name (one_to_many (associations m)))
            (assoc (js "member") (own (table r)))
          = Some [js "pet"]
       /\ option_map (fun m => map name (one_to_one (associations m)))
            (assoc (js "member") (own (table r)))
          = Some [].
Proof.
  split; [reflexivity|]. eexists. split; [reflexivity|]. split; reflexivity.
Qed.

(** C7 as stated fails: the run over the colliding inputs completes and
    every line it logs is a progress line. *)
Lemma collision_not_reported :
  ~ collisions_reported (host := sampleHost) 3 colliding_inputs.
Proof.
  intros H.
  destruct (createModels (host := sampleHost) 3 start colliding_inputs)
    as [r|e|] eqn:Hrun; try (vm_compute in Hrun; discriminate Hrun).
  destruct (H r Hrun eq_refl) as [line [Hin Hnot]].
  apply Hnot. exact (console_is_progress _ _ _ Hrun line Hin).
Qed.

(** * Further properties *)

(** ** The association table after the first loop *)

Section Associations.
Context {host : Host}.

Lemma inferDataType_tag v key (am am' : list (jsstring * associatedModel)) tag :
  inferDataType v key am = Ok (tag, am') -> tag = tagOf v.
Proof.
  destruct v; simpl; try (intros [= <- _]; reflexivity).
  - destruct (isInt n); intros [= <- _]; reflexivity.
  - destruct (dateParses s && parseInt_isNaN s);
      [|destruct (140 <? List.length s)]; intros [= <- _]; reflexivity.
  - destruct (stuffable elems); [intros [= <- _]; reflexivity|].
    destruct (register _ _ _ _); simpl; [|discriminate].
    intros [= <- _]; reflexivity.
  - destruct (register _ _ _ _); simpl; [|discriminate].
    intros [= <- _]; reflexivity.
Qed.

Lemma collected_snoc ck (seen : list (jsstring * value)) entry :
  collected ck (seen ++ [entry]) =
  collected ck seen
  ++ (if eqb_js (toCamelCase (fst entry)) ck
      then match registers (snd entry) with
           | Some _ => pushedExamples (snd entry)
           | None => []
           end
      else []).
Proof. unfold collected. rewrite flat_map_app. simpl. now rewrite app_nil_r. Qed.

Lemma assoc_existsb {A} (l : list (jsstring * A)) k :
  existsb (eqb_js k) (map fst l)
  = match assoc k l with Some _ => true | None => false end.
Proof.
  induction l as [|[k' a] l IH]; simpl; [reflexivity|].
  destruct (eqb_js k k'); [reflexivity|exact IH].
Qed.

Lemma associationKeys_snoc (seen : list (jsstring * value)) entry :
  associationKeys (seen ++ [entry]) =
  match registers (snd entry) with
  | Some _ =>
      if existsb (eqb_js (toCamelCase (fst entry))) (associationKeys seen)
      then associationKeys seen
      else associationKeys seen ++ [toCamelCase (fst entry)]
  | None => associationKeys seen
  end.
Proof. unfold associationKeys. now rewrite fold_left_app. Qed.

(** The whole content of [associatedModels] when the first loop completes,
    read off the observations. *)
Lemma scanExamples_associations (exs : list value) body am :
  scanExamples exs = Ok (body, am) ->
  exists obs,
    observations exs = Ok obs
    /\ map fst am = associationKeys obs
    /\ forall ck,
         assoc ck am
         = option_map
             (fun rel => {| name := ck; relation := rel;
                            examples := collected ck obs |})
             (firstRegistration ck obs).
Proof.
  intros Hscan.
  destruct (scanExamples_ind (fun _ => True)
              (fun st seen =>
                 map fst (snd st) = associationKeys seen
                 /\ forall ck,
                      assoc ck (snd st)
                      = option_map
                          (fun rel => {| name := ck; relation := rel;
                                         examples := collected ck seen |})
                          (firstRegistration ck seen)))
    with (exs := exs) (st := (body, am)) as [obs [Hobs Hinv]];
    [| |assumption|].
  - split; reflexivity.
  - intros [b a] seen [key v] [b' a'] Hc _ [Hkeys Hall] Hstep.
    simpl in Hc, Hkeys, Hall |- *.
    rewrite observe_clean_eq in Hstep by exact Hc.
    destruct (inferDataType v key a) as [[tag a1]|e] eqn:E; [|discriminate].
    injection Hstep as _ <-.
    apply inferDataType_registers in E.
    rewrite associationKeys_snoc. simpl.
    destruct (registers v) as [rel|] eqn:Er.
    + rewrite <- Hkeys, assoc_existsb.
      apply register_spec in E as [[Habs ->]|[m [Hm ->]]].
      * rewrite Habs. split; [rewrite map_app; reflexivity|].
        intros ck. rewrite firstRegistration_snoc, collected_snoc. simpl.
        rewrite Er.
        destruct (eqb_js (toCamelCase key) ck) eqn:Ek.
        -- apply eqb_js_eq in Ek. subst ck.
           rewrite (assoc_app_absent _ _ _ Habs).
           pose proof (Hall (toCamelCase key)) as H0. rewrite Habs in H0.
           destruct (firstRegistration (toCamelCase key) seen) eqn:Ef;
             [discriminate|].
           simpl. do 2 f_equal.
           assert (Hnone : forall l,
                     firstRegistration (toCamelCase key) l = None ->
                     collected (toCamelCase key) l = []).
           { clear. induction l as [|[k0 v0] l IH]; simpl; [reflexivity|].
             unfold collected in *. simpl.
             destruct (eqb_js (toCamelCase k0) (toCamelCase key));
               [|exact IH].
             destruct (registers v0); [discriminate|exact IH]. }
           now rewrite (Hnone _ Ef).
        -- apply eqb_js_neq in Ek.
           rewrite assoc_app_other by congruence.
           rewrite Hall, app_nil_r.
           now destruct (firstRegistration ck seen).
      * rewrite Hm. split; [now rewrite (assoc_set_keys _ _ _ _ Hm)|].
        intros ck. rewrite firstRegistration_snoc, collected_snoc. simpl.
        rewrite Er.
        destruct (eqb_js (toCamelCase key) ck) eqn:Ek.
        -- apply eqb_js_eq in Ek. subst ck.
           rewrite (assoc_set_same _ _ _ _ Hm).
           pose proof (Hall (toCamelCase key)) as H0. rewrite Hm in H0.
           destruct (firstRegistration (toCamelCase key) seen) eqn:Ef;
             [|discriminate].
           simpl in H0. injection H0 as ->. reflexivity.
        -- apply eqb_js_neq in Ek.
           rewrite assoc_set_other by congruence.
           rewrite Hall, app_nil_r.
           now destruct (firstRegistration ck seen).
    + subst a1. split; [assumption|].
      intros ck. rewrite firstRegistration_snoc, collected_snoc. simpl.
      rewrite Er, Hall.
      destruct (eqb_js (toCamelCase key) ck); rewrite app_nil_r;
        now destruct (firstRegistration ck seen).
  - exists obs. split; [assumption|].
    destruct Hinv as [H _]; [apply Forall_forall; trivial|]. exact H.
Qed.

End Associations.

(** ** The field map after the first loop *)

Section FieldMap.
Context {host : Host}.

Lemma lastTag_snoc ck (seen : list (jsstring * value)) entry :
  lastTag ck (seen ++ [entry]) =
  if eqb_js (toCamelCase (fst entry)) ck
  then match tagOf (snd entry) with
       | Some t => Some t
       | None => lastTag ck seen
       end
  else lastTag ck seen.
Proof. unfold lastTag. now rewrite fold_left_app. Qed.

Lemma lastTag_observed ck (seen : list (jsstring * value)) t :
  lastTag ck seen = Some t ->
  exists key v, In (key, v) seen /\ toCamelCase key = ck.
Proof.
  induction seen as [|[key v] seen IH] using rev_ind; [discriminate|].
  rewrite lastTag_snoc. simpl.
  destruct (eqb_js (toCamelCase key) ck) eqn:Ek.
  - apply eqb_js_eq in Ek. intros _. exists key, v.
    split; [apply in_or_app; right; now left|assumption].
  - intros H. destruct (IH H) as [k0 [v0 [Hin Hk]]].
    exists k0, v0. split; [apply in_or_app; now left|assumption].
Qed.

Lemma fieldKeys_snoc (seen : list (jsstring * value)) entry :
  fieldKeys (seen ++ [entry]) =
  if existsb (eqb_js (toCamelCase (fst entry))) (fieldKeys seen)
  then fieldKeys seen
  else if sets_prototype (toCamelCase (fst entry)) then fieldKeys seen
  else fieldKeys seen ++ [toCamelCase (fst entry)].
Proof. unfold fieldKeys. now rewrite fold_left_app. Qed.

Lemma objSet_keys {A} (o : object A) k a :
  map fst (own (objSet o k a)) =
  if existsb (eqb_js k) (map fst (own o)) then map fst (own o)
  else if sets_prototype k then map fst (own o)
  else map fst (own o) ++ [k].
Proof.
  rewrite assoc_existsb. unfold objSet, sets_prototype.
  destruct (assoc k (own o)) eqn:E; simpl.
  - exact (assoc_set_keys _ _ a _ E).
  - destruct (eqb_js k proto_key && objectProto k); simpl; [reflexivity|].
    now rewrite map_app.
Qed.

Lemma objSet_proto_case {A} (o : object A) k a p :
  proto (objSet o k a) = Some p ->
  proto o = Some p \/ sets_prototype k = true.
Proof.
  unfold objSet, sets_prototype. destruct (assoc k (own o)); simpl; [tauto|].
  destruct (eqb_js k proto_key && objectProto k); simpl; tauto.
Qed.

Lemma register_keeps rel pushed ck0 (am am1 : list (jsstring * associatedModel))
  ck :
  register rel pushed ck0 am = Ok am1 ->
  assoc ck am <> None -> assoc ck am1 <> None.
Proof.
  intros H Hck. apply register_spec in H as [[Habs ->]|[m [Hm ->]]].
  - destruct (eqb_js ck ck0) eqn:E.
    + apply eqb_js_eq in E. congruence.
    + apply eqb_js_neq in E. now rewrite assoc_app_other.
  - destruct (eqb_js ck ck0) eqn:E.
    + apply eqb_js_eq in E. subst ck0.
      rewrite (assoc_set_same _ _ _ _ Hm). discriminate.
    + apply eqb_js_neq in E. now rewrite assoc_set_other.
Qed.

Lemma register_registers rel pushed ck0 (am am1 : list (jsstring * associatedModel)) :
  register rel pushed ck0 am = Ok am1 -> assoc ck0 am1 <> None.
Proof.
  intros H. apply register_spec in H as [[Habs ->]|[m [Hm ->]]].
  - rewrite (assoc_app_absent _ _ _ Habs). discriminate.
  - rewrite (assoc_set_same _ _ _ _ Hm). discriminate.
Qed.

Lemma tagOf_nested v :
  tagOf v = Some DataTypes_NESTED -> registers v <> None.
Proof.
  destruct v; simpl; try discriminate.
  - destruct (isInt n); intros H; vm_compute in H; discriminate H.
  - destruct (dateParses s && parseInt_isNaN s);
      [|destruct (140 <? List.length s)];
      intros H; vm_compute in H; discriminate H.
  - destruct (stuffable elems); [|discriminate].
    intros H; vm_compute in H; discriminate H.
Qed.

Lemma sets_prototype_objectProto k :
  sets_prototype k = true -> objectProto proto_key = true.
Proof.
  unfold sets_prototype. intros H. apply andb_true_iff in H as [H1 H2].
  apply eqb_js_eq in H1. now subst k.
Qed.

Lemma bodyGet_absent (body : object field_desc) k d :
  assoc k (own body) = None ->
  (forall p, proto body = Some p -> objectProto proto_key = true) ->
  sets_prototype k = false ->
  property_truthy (bodyGet body k) = true ->
  property_type (bodyGet body k) = Some d -> False.
Proof.
  intros Habs Hproto Hset. unfold bodyGet. rewrite Habs.
  destruct (proto body) as [p|] eqn:Ep.
  - destruct (eqb_js k (js "type")); [destruct (type p); discriminate|].
    destruct (eqb_js k (js "field")); [discriminate|].
    destruct (eqb_js k proto_key) eqn:Ek.
    + unfold sets_prototype in Hset. rewrite Ek in Hset. simpl in Hset.
      apply eqb_js_eq in Ek. subst k.
      rewrite (Hproto p eq_refl) in Hset. discriminate.
    + destruct (objectProto k); discriminate.
  - destruct (objectProto k); discriminate.
Qed.

Lemma fields_invariant_step st seen entry st' :
  clean (fst st) -> fields_invariant st seen ->
  observe st entry = Ok st' -> fields_invariant st' (seen ++ [entry]).
Proof.
  destruct st as [b a], entry as [key v], st' as [b' a'].
  intros Hc [Hkeys [Hproto [Hcov [Htag Hnest]]]] Hstep.
  simpl in Hc, Hkeys, Hproto, Hcov, Htag, Hnest.
  rewrite observe_clean_eq in Hstep by exact Hc.
  destruct (inferDataType v key a) as [[tag a1]|e] eqn:E; [|discriminate].
  injection Hstep as <- <-.
  pose proof (inferDataType_tag _ _ _ _ _ E) as Htagv.
  pose proof (inferDataType_registers _ _ _ _ _ E) as Hreg.
  set (ck0 := toCamelCase key) in *.
  set (new := {| type := mergedType b ck0 tag; field := key |}).
  assert (Hmono : forall ck, assoc ck a <> None -> assoc ck a1 <> None).
  { intros ck Hck. destruct (registers v).
    - eapply register_keeps; eassumption.
    - now subst a1. }
  assert (Hown : assoc ck0 (own b) = None -> sets_prototype ck0 = true ->
                 own (objSet b ck0 new) = own b).
  { intros Habs Hset. unfold objSet. rewrite Habs.
    unfold sets_prototype in Hset. now rewrite Hset. }
  repeat split; simpl.
  - rewrite objSet_keys, fieldKeys_snoc, Hkeys. reflexivity.
  - intros p Hp. apply objSet_proto_case in Hp as [Hp|Hp];
      [eauto|now apply sets_prototype_objectProto in Hp].
  - intros k0 v0 Hin. apply in_app_or in Hin as [Hin|[[= -> ->]|[]]].
    + destruct (Hcov _ _ Hin) as [H|H]; [left|now right].
      destruct (assoc (toCamelCase k0) (own b)) as [d0|] eqn:E0; [|congruence].
      destruct (eqb_js (toCamelCase k0) ck0) eqn:Ek.
      * apply eqb_js_eq in Ek. rewrite Ek in *.
        destruct (objSet_overwrites b ck0 new d0 E0) as [-> _]. discriminate.
      * apply eqb_js_neq in Ek. unfold objSet.
        destruct (assoc ck0 (own b)) eqn:E1; simpl.
        -- rewrite assoc_set_other by assumption. congruence.
        -- destruct (eqb_js ck0 proto_key && objectProto ck0); simpl;
             [congruence|].
           rewrite assoc_app_other by assumption. congruence.
    + fold ck0. destruct (sets_prototype ck0) eqn:Hset; [now right|left].
      unfold objSet. destruct (assoc ck0 (own b)) eqn:E1; simpl.
      * rewrite (assoc_set_same _ _ new _ E1). discriminate.
      * unfold sets_prototype in Hset. rewrite Hset. simpl.
        rewrite (assoc_app_absent _ _ new E1). discriminate.
  - intros ck d t Hd. rewrite lastTag_snoc. simpl. fold ck0.
    apply objSet_assoc in Hd as Hcase.
    destruct Hcase as [[-> ->]|[Hne Hold]].
    + rewrite eqb_js_refl. simpl. subst tag.
      destruct (tagOf v) as [t'|]; [trivial|]. simpl. intros Hlast.
      destruct (assoc ck0 (own b)) as [d0|] eqn:E0.
      * unfold bodyGet. rewrite E0. simpl. eauto.
      * exfalso. destruct (lastTag_observed _ _ _ Hlast) as [k1 [v1 [Hin Hk]]].
        destruct (Hcov _ _ Hin) as [H|H]; rewrite Hk in H; [congruence|].
        rewrite (Hown eq_refl H) in Hd. congruence.
    + replace (eqb_js ck0 ck) with false
        by (symmetry; apply eqb_js_neq; congruence).
      eauto.
  - intros ck d Hd Hnested.
    apply objSet_assoc in Hd as Hcase.
    destruct Hcase as [[-> ->]|[Hne Hold]].
    + simpl in Hnested. subst tag.
      destruct (tagOf v) as [t'|] eqn:Et; simpl in Hnested.
      * injection Hnested as ->. apply tagOf_nested in Et.
        destruct (registers v); [|congruence].
        eapply register_registers; eassumption.
      * apply Hmono.
        destruct (assoc ck0 (own b)) as [d0|] eqn:E0.
        -- apply (Hnest ck0 d0 E0). revert Hnested.
           unfold bodyGet. rewrite E0. simpl. trivial.
        -- exfalso. destruct (sets_prototype ck0) eqn:Hset.
           ++ rewrite (Hown eq_refl eq_refl) in Hd. congruence.
           ++ destruct (property_truthy (bodyGet b ck0)) eqn:Ht.
              ** eapply bodyGet_absent; eassumption.
              ** vm_compute in Hnested. discriminate Hnested.
    + apply Hmono. eauto.
Qed.

Lemma scanExamples_fields (exs : list value) body am :
  scanExamples exs = Ok (body, am) ->
  exists obs, observations exs = Ok obs /\ fields_invariant (body, am) obs.
Proof.
  intros Hscan.
  destruct (scanExamples_ind (fun _ => True) fields_invariant)
    with (exs := exs) (st := (body, am)) as [obs [Hobs Hinv]];
    [| |assumption|].
  - repeat split; simpl; try discriminate; try tauto.
  - intros st seen entry st' Hc _ Hinv Hstep.
    eapply fields_invariant_step; eassumption.
  - exists obs. split; [assumption|].
    destruct Hinv as [H _]; [apply Forall_forall; trivial|]. exact H.
Qed.

End FieldMap.

(** ** What the first loop computes *)

Section ScanResults.
Context {host : Host}.

Lemma firstRegistration_relation ck (obs : list (jsstring * value)) rel :
  firstRegistration ck obs = Some rel -> rel = js "1:1" \/ rel = js "1:n".
Proof.
  induction obs as [|[key v] obs IH]; simpl; [discriminate|].
  destruct (eqb_js (toCamelCase key) ck); [|exact IH].
  destruct (registers v) as [r|] eqn:Er; [|exact IH].
  intros [= <-]. destruct v; try discriminate.
  - simpl in Er. destruct (stuffable elems); [discriminate|].
    injection Er as <-. now right.
  - injection Er as <-. now left.
Qed.

Lemma associationKeys_NoDup (obs : list (jsstring * value)) :
  NoDup (associationKeys obs).
Proof.
  induction obs as [|[key v] obs IH] using rev_ind; [constructor|].
  rewrite associationKeys_snoc. simpl.
  destruct (registers v); [|assumption].
  destruct (existsb (eqb_js (toCamelCase key)) (associationKeys obs)) eqn:E;
    [assumption|].
  apply NoDup_snoc; [assumption|]. intros Hin.
  assert (existsb (eqb_js (toCamelCase key)) (associationKeys obs) = true).
  { apply existsb_exists. eexists. split; [exact Hin|apply eqb_js_refl]. }
  congruence.
Qed.

(** Accumulated examples: when the first loop completes, the entry of an
    association carries its canonical key as its name, and its examples are
    exactly what the observations of that key pushed, in the order of the
    observations: the value itself for an object, every element for an array
    that is not serialized as a string. *)
Theorem examples_are_collected (exs : list value)
  (body : object field_desc) (am : list (jsstring * associatedModel)) :
  scanExamples exs = Ok (body, am) ->
  exists obs,
    observations exs = Ok obs
    /\ forall camelCasedKey m,
         assoc camelCasedKey am = Some m ->
         name m = camelCasedKey
         /\ examples m = collected camelCasedKey obs
         /\ (relation m = js "1:1" \/ relation m = js "1:n").
Proof.
  intros Hscan.
  destruct (scanExamples_associations _ _ _ Hscan) as [obs [Hobs [_ Hall]]].
  exists obs. split; [assumption|]. intros ck m Hm.
  rewrite Hall in Hm.
  destruct (firstRegistration ck obs) as [rel|] eqn:Ef; [|discriminate].
  injection Hm as <-. simpl. repeat split.
  exact (firstRegistration_relation _ _ _ Ef).
Qed.

Lemma assoc_remove_filter {A} (k : jsstring) (l : list (jsstring * A)) :
  assoc_remove k l = filter (fun p => negb (eqb_js k (fst p))) l.
Proof.
  induction l as [|[k' a] l IH]; simpl; [reflexivity|].
  destruct (eqb_js k k'); simpl; now rewrite IH.
Qed.

Lemma filter_filter {A} (f g : A -> bool) (l : list A) :
  filter f (filter g l) = filter (fun x => g x && f x) l.
Proof.
  induction l as [|x l IH]; simpl; [reflexivity|].
  destruct (g x); simpl; [destruct (f x)|]; now rewrite IH.
Qed.

Lemma strip_fold_filter (L : list (jsstring * field_desc)) :
  forall b : object field_desc,
    own (fold_left
           (fun b p =>
              if is_nested (snd p)
              then {| own := assoc_remove (fst p) (own b); proto := proto b |}
              else b) L b)
    = filter
        (fun p => negb (existsb (fun q => is_nested (snd q)
                                          && eqb_js (fst q) (fst p)) L))
        (own b).
Proof.
  induction L as [|q L IH]; intros b; simpl.
  - induction (own b) as [|x l IHl]; simpl; [reflexivity|]. now f_equal.
  - destruct (is_nested (snd q)); simpl.
    + rewrite IH. simpl. rewrite assoc_remove_filter, filter_filter.
      apply filter_ext. intros p. now rewrite negb_orb.
    + apply IH.
Qed.

Lemma NoDup_keys_inj {A} (l : list (jsstring * A)) p q :
  NoDup (map fst l) -> In p l -> In q l -> fst p = fst q -> p = q.
Proof.
  induction l as [|x l IH]; simpl; [tauto|].
  intros Hnd. inversion Hnd as [|? ? Hx Hl]; subst.
  intros [->|Hp] [->|Hq] E; auto.
  - exfalso. apply Hx. rewrite E. now apply in_map.
  - exfalso. apply Hx. rewrite <- E. now apply in_map.
Qed.

(** With distinct keys the second loop is a filter: the entries that are
    not typed DataTypes.NESTED stay, in their order. *)
Lemma stripNested_filter (body : object field_desc) :
  NoDup (map fst (own body)) ->
  own (stripNested body)
  = filter (fun p => negb (is_nested (snd p))) (own body).
Proof.
  intros Hnd. unfold stripNested. rewrite strip_fold_filter.
  apply filter_ext_in. intros p Hp. f_equal.
  destruct (is_nested (snd p)) eqn:Ep.
  - apply existsb_exists. exists p. split; [now apply ownProperties_In|].
    now rewrite Ep, eqb_js_refl.
  - destruct (existsb _ _) eqn:Ex; [|reflexivity].
    apply existsb_exists in Ex as [q [Hq Hcond]].
    apply andb_true_iff in Hcond as [Hnq Heq].
    apply eqb_js_eq in Heq.
    apply (proj1 (ownProperties_In _ _)) in Hq.
    rewrite (NoDup_keys_inj _ _ _ Hnd Hq Hp Heq) in Hnq. congruence.
Qed.

Lemma assoc_filter {A} (f : jsstring * A -> bool) (l : list (jsstring * A))
  k a :
  assoc k l = Some a -> f (k, a) = true -> assoc k (filter f l) = Some a.
Proof.
  induction l as [|[k' a'] l IH]; simpl; [discriminate|].
  destruct (eqb_js k k') eqn:E.
  - apply eqb_js_eq in E. subst k'. intros [= ->] Hf. rewrite Hf. simpl.
    now rewrite eqb_js_refl.
  - intros H Hf. destruct (f (k', a')); simpl; [rewrite E|]; now apply IH.
Qed.

Lemma fieldKeys_NoDup (obs : list (jsstring * value)) : NoDup (fieldKeys obs).
Proof.
  induction obs as [|[key v] obs IH] using rev_ind; [constructor|].
  rewrite fieldKeys_snoc. simpl.
  destruct (existsb (eqb_js (toCamelCase key)) (fieldKeys obs)) eqn:E;
    [assumption|].
  destruct (sets_prototype (toCamelCase key)); [assumption|].
  apply NoDup_snoc; [assumption|]. intros Hin.
  assert (existsb (eqb_js (toCamelCase key)) (fieldKeys obs) = true).
  { apply existsb_exists. eexists. split; [exact Hin|apply eqb_js_refl]. }
  congruence.
Qed.

(** Field coverage: when the first loop completes, every canonical key that
    was observed is a field of the written body or the key of an
    association, unless assignments to it go to the [__proto__] setter. *)
Theorem observed_keys_are_covered (exs : list value)
  (body : object field_desc) (am : list (jsstring * associatedModel)) :
  scanExamples exs = Ok (body, am) ->
  exists obs,
    observations exs = Ok obs
    /\ forall key v,
         In (key, v) obs ->
         assoc (toCamelCase key) (own (stripNested body)) <> None
         \/ assoc (toCamelCase key) am <> None
         \/ sets_prototype (toCamelCase key) = true.
Proof.
  intros Hscan.
  destruct (scanExamples_fields _ _ _ Hscan)
    as [obs [Hobs [Hkeys [_ [Hcov [_ Hnest]]]]]].
  simpl in Hkeys, Hcov, Hnest.
  exists obs. split; [assumption|]. intros key v Hin.
  destruct (Hcov _ _ Hin) as [Hown|Hset]; [|now right; right].
  destruct (assoc (toCamelCase key) (own body)) as [d|] eqn:Ed; [|congruence].
  destruct (is_nested d) eqn:En.
  - right. left. apply (Hnest _ _ Ed).
    unfold is_nested in En. destruct (type d) as [t|]; [|discriminate].
    apply eqb_js_eq in En. now subst t.
  - left. rewrite stripNested_filter
      by (rewrite Hkeys; apply fieldKeys_NoDup).
    rewrite (assoc_filter _ _ _ _ Ed); [discriminate|].
    simpl. now rewrite En.
Qed.

(** Last classification wins: when the first loop completes, the type of a
    field is the tag of the last observation of its canonical key that the
    classifier did not answer with [null], whatever the earlier records
    said. *)
Theorem last_classification_wins (exs : list value)
  (body : object field_desc) (am : list (jsstring * associatedModel)) :
  scanExamples exs = Ok (body, am) ->
  exists obs,
    observations exs = Ok obs
    /\ forall camelCasedKey d t,
         assoc camelCasedKey (own body) = Some d ->
         lastTag camelCasedKey obs = Some t ->
         type d = Some t.
Proof.
  intros Hscan.
  destruct (scanExamples_fields _ _ _ Hscan)
    as [obs [Hobs [_ [_ [_ [Htag _]]]]]].
  exists obs. split; [assumption|]. exact Htag.
Qed.

(** Placeholder: a field whose observations are all answered with [null]
    is typed with the placeholder ???, provided its canonical key names
    nothing on [Object.prototype] and no observed key canonicalizes to
    [__proto__]. *)
Theorem unclassified_field_gets_placeholder (exs : list value)
  (body : object field_desc) (am : list (jsstring * associatedModel))
  (obs : list (jsstring * value)) :
  scanExamples exs = Ok (body, am) ->
  observations exs = Ok obs ->
  Forall (fun entry => toCamelCase (fst entry) <> proto_key) obs ->
  forall camelCasedKey d,
    objectProto camelCasedKey = false ->
    assoc camelCasedKey (own body) = Some d ->
    lastTag camelCasedKey obs = None ->
    type d = Some unknown_type.
Proof.
  intros Hscan Hobs Hkeys.
  destruct (scanExamples_ind
              (fun entry => toCamelCase (fst entry) <> proto_key)
              (fun st seen =>
                 proto (fst st) = None
                 /\ forall ck d,
                      objectProto ck = false ->
                      assoc ck (own (fst st)) = Some d ->
                      lastTag ck seen = None ->
                      type d = Some unknown_type))
    with (exs := exs) (st := (body, am)) as [obs' [Hobs' Hinv]];
    [| |assumption|].
  - simpl. split; [reflexivity|discriminate].
  - intros [b a] seen [key v] [b' a'] Hc Hkey [Hproto Hall] Hstep.
    simpl in Hc, Hkey, Hproto, Hall |- *.
    rewrite observe_clean_eq in Hstep by exact Hc.
    destruct (inferDataType v key a) as [[tag a1]|e] eqn:E; [|discriminate].
    injection Hstep as <- _.
    pose proof (inferDataType_tag _ _ _ _ _ E) as Htagv. split.
    + destruct (proto (objSet b (toCamelCase key)
                         {| type := mergedType b (toCamelCase key) tag;
                            field := key |})) as [p|] eqn:Ep; [|reflexivity].
      apply objSet_proto_case in Ep as [Ep|Ep]; [congruence|].
      unfold sets_prototype in Ep. apply andb_true_iff in Ep as [Ep _].
      apply eqb_js_eq in Ep. contradiction.
    + intros ck d Hck Hd. rewrite lastTag_snoc. simpl.
      apply objSet_assoc in Hd as [[-> ->]|[Hne Hold]].
      * rewrite eqb_js_refl. subst tag.
        destruct (tagOf v); [discriminate|]. intros Hlast. simpl.
        unfold bodyGet. rewrite Hproto.
        destruct (assoc (toCamelCase key) (own b)) as [d0|] eqn:E0; simpl.
        -- eauto.
        -- rewrite Hck. reflexivity.
      * replace (eqb_js (toCamelCase key) ck) with false
          by (symmetry; apply eqb_js_neq; congruence).
        eauto.
  - rewrite Hobs in Hobs'. injection Hobs' as <-.
    destruct (Hinv Hkeys) as [[_ H] _]. exact H.
Qed.

End ScanResults.

Section Spelling.
Context {host : Host}.

(** C10. Last spelling wins: when the first loop completes, every observed
    canonical key (that does not go to the [__proto__] setter) has an entry
    in [body], whose [field] is the raw key of the last observation, in
    record order and then key order, whose key canonicalizes to that name;
    the entry is in the written field map unless it is typed
    DataTypes.NESTED, and the written field map has one entry per canonical
    name, each with that last spelling. *)
Theorem last_spelling_wins (exs : list value) (body : object field_desc)
  (am : list (jsstring * associatedModel)) :
  scanExamples exs = Ok (body, am) ->
  exists obs,
    observations exs = Ok obs
    /\ NoDup (map fst (own (stripNested body)))
    /\ (forall camelCasedKey d,
          assoc camelCasedKey (own (stripNested body)) = Some d ->
          lastSpelling camelCasedKey obs = Some (field d))
    /\ (forall key v,
          In (key, v) obs ->
          sets_prototype (toCamelCase key) = false ->
          exists d,
            assoc (toCamelCase key) (own body) = Some d
            /\ lastSpelling (toCamelCase key) obs = Some (field d)
            /\ (type d <> Some DataTypes_NESTED ->
                assoc (toCamelCase key) (own (stripNested body)) = Some d)).
Proof.
  intros Hscan.
  destruct (scanExamples_spelling _ _ _ Hscan) as [obs [Hobs [Hnd Hlast]]].
  destruct (scanExamples_fields _ _ _ Hscan)
    as [obs' [Hobs' [_ [_ [Hcov _]]]]].
  rewrite Hobs in Hobs'. injection Hobs' as <-. simpl in Hcov.
  exists obs. split; [assumption|]. split; [now apply stripNested_NoDup|].
  split.
  - intros ck d Hd. apply Hlast. now apply stripNested_assoc.
  - intros key v Hin Hset.
    destruct (Hcov _ _ Hin) as [Hown|Hset']; [|congruence].
    destruct (assoc (toCamelCase key) (own body)) as [d|] eqn:Ed;
      [|congruence].
    exists d. split; [reflexivity|]. split; [now apply Hlast|].
    intros Htype. rewrite (stripNested_filter _ Hnd).
    apply assoc_filter; [assumption|]. simpl.
    now rewrite (proj2 (is_nested_false d) Htype).
Qed.

End Spelling.

Lemma last_spelling_wins_witness :
  exists body am,
    scanExamples (host := sampleHost) two_spellings = Ok (body, am)
    /\ exists obs,
         observations two_spellings = Ok obs
         /\ NoDup (map fst (own (stripNested body)))
         /\ (forall camelCasedKey d,
               assoc camelCasedKey (own (stripNested body)) = Some d ->
               lastSpelling (host := sampleHost) camelCasedKey obs
               = Some (field d))
         /\ (forall key v,
               In (key, v) obs ->
               sets_prototype (host := sampleHost) (sample_toCamelCase key)
               = false ->
               exists d,
                 assoc (sample_toCamelCase key) (own body) = Some d
                 /\ lastSpelling (host := sampleHost) (sample_toCamelCase key)
                      obs = Some (field d)
                 /\ (type d <> Some DataTypes_NESTED ->
                     assoc (sample_toCamelCase key) (own (stripNested body))
                     = Some d)).
Proof.
  eexists. eexists. split; [reflexivity|].
  exact (last_spelling_wins (host := sampleHost) two_spellings _ _ eq_refl).
Defined.

Lemma examples_are_collected_witness :
  exists body am,
    scanExamples (host := sampleHost) object_then_array = Ok (body, am)
    /\ exists obs,
         observations object_then_array = Ok obs
         /\ forall camelCasedKey m,
              assoc camelCasedKey am = Some m ->
              name m = camelCasedKey
              /\ examples m = collected (host := sampleHost) camelCasedKey obs
              /\ (relation m = js "1:1" \/ relation m = js "1:n").
Proof.
  eexists. eexists. split; [reflexivity|].
  exact (examples_are_collected (host := sampleHost) object_then_array
           _ _ eq_refl).
Defined.

Lemma observed_keys_are_covered_witness :
  exists body am,
    scanExamples (host := sampleHost) orders_example = Ok (body, am)
    /\ exists obs,
         observations orders_example = Ok obs
         /\ forall key v,
              In (key, v) obs ->
              assoc (sample_toCamelCase key) (own (stripNested body)) <> None
              \/ assoc (sample_toCamelCase key) am <> None
              \/ sets_prototype (host := sampleHost) (sample_toCamelCase key)
                 = true.
Proof.
  eexists. eexists. split; [reflexivity|].
  exact (observed_keys_are_covered (host := sampleHost) orders_example
           _ _ eq_refl).
Defined.

Lemma last_classification_wins_witness :
  exists body am,
    scanExamples (host := sampleHost) two_spellings = Ok (body, am)
    /\ exists obs,
         observations two_spellings = Ok obs
         /\ forall camelCasedKey d t,
              assoc camelCasedKey (own body) = Some d ->
              lastTag (host := sampleHost) camelCasedKey obs = Some t ->
              type d = Some t.
Proof.
  eexists. eexists. split; [reflexivity|].
  exact (last_classification_wins (host := sampleHost) two_spellings
           _ _ eq_refl).
Defined.

Lemma unclassified_field_gets_placeholder_witness :
  exists d,
    assoc (js "note")
      (own (fst (match scanExamples (host := sampleHost) null_only_field with
                 | Ok st => st
                 | Throw _ => (empty_object, [])
                 end))) = Some d
    /\ type d = Some unknown_type.
Proof.
  eexists. split; [reflexivity|].
  refine (unclassified_field_gets_placeholder (host := sampleHost)
            null_only_field _ _ _ eq_refl eq_refl _ (js "note") _
            eq_refl eq_refl eq_refl).
  repeat constructor; vm_compute; discriminate.
Defined.

(** ** What a job returns and writes *)

Section JobResults.
Context {host : Host}.

Lemma generateOthers_names
  (job : jsstring -> list value -> outcome job_result) :
  (forall n exs a b fs,
      job n exs = Done (a, b, fs) ->
      map model (a :: b) = map (fun f : file => toCamelCase (fst f)) fs) ->
  forall entries infos files,
    generateOthers job entries = Done (infos, files) ->
    map model infos = map (fun f : file => toCamelCase (fst f)) files.
Proof.
  intros Hjob. induction entries as [|[key m] entries IH]; simpl.
  - intros infos files [= <- <-]. reflexivity.
  - intros infos files.
    destruct (job (toCamelCase key) (examples m)) as [[[a b] fs]|e|] eqn:E;
      try discriminate.
    destruct (generateOthers job entries) as [[infos' files']|e|] eqn:E';
      try discriminate.
    intros [= <- <-]. rewrite map_app.
    change (a :: b ++ infos') with ((a :: b) ++ infos').
    rewrite map_app, (Hjob _ _ _ _ _ E), (IH _ _ eq_refl). reflexivity.
Qed.

(** One description per file: when a job completes, the array it returns
    lists, in the order the model files were written, the canonical form of
    the name of each file. *)
Theorem returned_models_match_files (fuel : nat) (modelName : jsstring)
  (exs : list value) (first : modelInfo) (others : list modelInfo)
  (files : list file) :
  generateSequelizeModel fuel modelName exs = Done (first, others, files) ->
  map model (first :: others)
  = map (fun f : file => toCamelCase (fst f)) files.
Proof.
  revert modelName exs first others files.
  induction fuel as [|fuel IH]; intros modelName exs first others files;
    [discriminate|].
  rewrite generateSequelizeModel_S.
  destruct (scanExamples exs) as [[body am]|e]; [|discriminate].
  destruct (generateOthers (generateSequelizeModel fuel) (ownProperties am))
    as [[infos fs]|e|] eqn:E; try discriminate.
  intros [= <- <- <-]. simpl. f_equal.
  eapply generateOthers_names; [|exact E]. intros n exs' a b fs'. apply IH.
Qed.

(** The two lists of a description: when a job completes, every association
    that the first loop registered is listed in the returned description of
    the job's model, under 1:n or under 1:1 according to its relation, and
    nothing else is listed. *)
Theorem description_lists_every_association (fuel : nat)
  (modelName : jsstring) (exs : list value) (first : modelInfo)
  (others : list modelInfo) (files : list file)
  (body : object field_desc) (am : list (jsstring * associatedModel)) :
  generateSequelizeModel fuel modelName exs = Done (first, others, files) ->
  scanExamples exs = Ok (body, am) ->
  model first = toCamelCase modelName
  /\ (forall m,
        In m (one_to_many (associations first))
        <-> In m (map snd am) /\ relation m = js "1:n")
  /\ (forall m,
        In m (one_to_one (associations first))
        <-> In m (map snd am) /\ relation m = js "1:1")
  /\ (forall m, In m (map snd am) -> In m (listed first)).
Proof.
  destruct fuel as [|fuel]; [discriminate|].
  rewrite generateSequelizeModel_S. intros Hrun Hscan.
  rewrite Hscan in Hrun.
  destruct (generateOthers (generateSequelizeModel fuel) (ownProperties am))
    as [[infos fs]|e|] eqn:E; try discriminate.
  injection Hrun as <- _ _. simpl.
  assert (Hin : forall m, In m (map snd (ownProperties am))
                          <-> In m (map snd am)).
  { intros m. rewrite !in_map_iff. split; intros [p [Hp Hin]]; exists p;
      (split; [assumption|]); now apply ownProperties_In. }
  assert (Hrel : forall m rel,
             relation_is rel m = true <-> relation m = rel).
  { intros m rel. unfold relation_is. apply eqb_js_eq. }
  split; [reflexivity|]. split; [|split].
  - intros m. rewrite filter_In, Hin, Hrel. tauto.
  - intros m. rewrite filter_In, Hin, Hrel. tauto.
  - intros m Hm. unfold listed. simpl. rewrite in_app_iff, !filter_In, !Hin.
    destruct (scanExamples_associations _ _ _ Hscan)
      as [obs [_ [Hkeys Hall]]].
    apply in_map_iff in Hm as Hp. destruct Hp as [[k m'] [Hk Hp]].
    simpl in Hk. subst m'.
    assert (Hnd : NoDup (map fst am))
      by (rewrite Hkeys; apply associationKeys_NoDup).
    assert (Ha : assoc k am = Some m).
    { clear - Hnd Hp. induction am as [|[k' m'] am IH]; simpl in *; [tauto|].
      inversion Hnd as [|? ? Hx Hl]; subst.
      destruct Hp as [[= -> ->]|Hp]; [now rewrite eqb_js_refl|].
      destruct (eqb_js k k') eqn:Ek; [|now apply IH].
      apply eqb_js_eq in Ek. subst k'. exfalso. apply Hx.
      apply in_map_iff. now exists (k, m). }
    rewrite Hall in Ha.
    destruct (firstRegistration k obs) as [rel|] eqn:Ef; [|discriminate].
    injection Ha as <-. simpl.
    destruct (firstRegistration_relation _ _ _ Ef) as [-> | ->];
      [right|left]; (split; [assumption|apply eqb_js_refl]).
Qed.

Lemma observations_ok (exs : list value) obs :
  observations exs = Ok obs ->
  forall example, In example exs ->
    example <> VNull /\ example <> VUndefined.
Proof.
  revert obs. induction exs as [|ex exs IH]; simpl; intros obs; [tauto|].
  destruct (Object_entries ex) as [entries|e] eqn:E; simpl; [|discriminate].
  destruct (observations exs) as [others|e]; simpl; [|discriminate].
  intros _ example [<-|Hin]; [|now apply (IH _ eq_refl)].
  split; intros ->; discriminate.
Qed.

(** A [null] example: a batch that holds [null] or [undefined] makes the job
    throw, whatever else it holds; this is what happens to the sub model of
    an array field such as [null, 1]. *)
Theorem null_example_throws (fuel : nat) (modelName : jsstring)
  (exs : list value) :
  In VNull exs \/ In VUndefined exs ->
  exists e,
    scanExamples exs = Throw e
    /\ generateSequelizeModel (S fuel) modelName exs = Raised e.
Proof.
  intros Hin. rewrite generateSequelizeModel_S.
  destruct (scanExamples exs) as [[body am]|e] eqn:Hscan;
    [|exists e; now split].
  exfalso. unfold scanExamples in Hscan.
  apply forEach_observeExample in Hscan as [obs [Hobs _]].
  pose proof (observations_ok _ _ Hobs) as Hok.
  destruct Hin as [Hin|Hin]; apply Hok in Hin; tauto.
Qed.

(** Examples without properties: a batch made of values that have no own
    enumerable property (numbers, booleans, empty objects, arrays and
    strings), the empty batch included, gives a model with an empty body and
    no association, and one file. *)
Theorem propertyless_examples_give_bare_model (fuel : nat)
  (modelName : jsstring) (exs : list value) :
  Forall (fun example => Object_entries example = Ok []) exs ->
  generateSequelizeModel (S fuel) modelName exs
  = Done (bare_model modelName, [], [(modelName, empty_object)]).
Proof.
  intros Hall. rewrite generateSequelizeModel_S.
  assert (Hscan : forall st, forEach observeExample exs st = Ok st).
  { induction Hall as [|ex exs Hex _ IH]; intros st; simpl; [reflexivity|].
    unfold observeExample at 1. rewrite Hex. simpl. apply IH. }
  unfold scanExamples. rewrite Hscan. reflexivity.
Qed.

End JobResults.

Lemma returned_models_match_files_witness :
  exists first others files,
    generateSequelizeModel (host := sampleHost) 2 (js "user") address_example
    = Done (first, others, files)
    /\ map model (first :: others)
       = map (fun f : file => sample_toCamelCase (fst f)) files.
Proof.
  eexists. eexists. eexists. split; [reflexivity|].
  exact (returned_models_match_files (host := sampleHost) 2 (js "user")
           address_example _ _ _ eq_refl).
Defined.

Lemma description_lists_every_association_witness :
  exists first others files body am,
    generateSequelizeModel (host := sampleHost) 2 (js "user") address_example
    = Done (first, others, files)
    /\ scanExamples (host := sampleHost) address_example = Ok (body, am)
    /\ model first = sample_toCamelCase (js "user")
    /\ (forall m,
          In m (one_to_many (associations first))
          <-> In m (map snd am) /\ relation m = js "1:n")
    /\ (forall m,
          In m (one_to_one (associations first))
          <-> In m (map snd am) /\ relation m = js "1:1")
    /\ (forall m, In m (map snd am) -> In m (listed first)).
Proof.
  do 5 eexists. split; [reflexivity|]. split; [reflexivity|].
  exact (description_lists_every_association (host := sampleHost) 2
           (js "user") address_example _ _ _ _ _ eq_refl eq_refl).
Defined.

Lemma null_example_throws_witness :
  exists e,
    scanExamples (host := sampleHost) [VObject [prop "id" (num 1)]; VNull]
    = Throw e
    /\ generateSequelizeModel (host := sampleHost) 1 (js "user")
         [VObject [prop "id" (num 1)]; VNull] = Raised e.
Proof.
  apply (null_example_throws (host := sampleHost) 0 (js "user")
           [VObject [prop "id" (num 1)]; VNull]).
  left. right. left. reflexivity.
Defined.

Lemma propertyless_examples_give_bare_model_witness :
  generateSequelizeModel (host := sampleHost) 1 (js "user")
    [num 1; VBool true; VObject []; VArray []; VString []]
  = Done (bare_model (host := sampleHost) (js "user"), [],
          [(js "user", empty_object)]).
Proof.
  apply (propertyless_examples_give_bare_model (host := sampleHost) 0
           (js "user")).
  repeat constructor.
Defined.

(** ** The order of [Object.entries] *)

Section Order.
Context {A : Type}.

Lemma insert_by_index_perm (n : N) (p : jsstring * A)
  (acc : list (N * (jsstring * A))) :
  Permutation (insert_by_index n p acc) ((n, p) :: acc).
Proof.
  induction acc as [|[m q] acc IH]; simpl; [reflexivity|].
  destruct (n <? m)%N; [reflexivity|].
  rewrite IH. apply perm_swap.
Qed.

Lemma index_part_perm (l : list (jsstring * A)) :
  Permutation (map snd (index_part l))
    (filter (fun p => match array_index (fst p) with
                      | Some _ => true
                      | None => false
                      end) l).
Proof.
  unfold index_part.
  assert (G : forall acc,
    Permutation
      (map snd (fold_left
         (fun acc p => match array_index (fst p) with
                       | Some n => insert_by_index n p acc
                       | None => acc
                       end) l acc))
      (filter (fun p => match array_index (fst p) with
                        | Some _ => true
                        | None => false
                        end) l ++ map snd acc)).
  { induction l as [|q l IH]; intros acc; simpl; [reflexivity|].
    rewrite IH. destruct (array_index (fst q)) as [n|]; [|reflexivity].
    simpl. rewrite (Permutation_map snd (insert_by_index_perm n q acc)).
    simpl. symmetry. apply Permutation_middle. }
  rewrite G. simpl. now rewrite app_nil_r.
Qed.

Lemma partition_perm (f : jsstring * A -> bool) (l : list (jsstring * A)) :
  Permutation (filter f l ++ filter (fun p => negb (f p)) l) l.
Proof.
  induction l as [|x l IH]; simpl; [reflexivity|].
  destruct (f x); simpl.
  - now constructor.
  - rewrite <- Permutation_middle. now constructor.
Qed.

(** [Object.entries] lists every own property once. *)
Lemma ownProperties_perm (l : list (jsstring * A)) :
  Permutation (ownProperties l) l.
Proof.
  unfold ownProperties, string_part. rewrite index_part_perm.
  rewrite <- (partition_perm
                (fun p => match array_index (fst p) with
                          | Some _ => true
                          | None => false
                          end) l) at 3.
  apply Permutation_app_head.
  erewrite filter_ext; [reflexivity|].
  intros p. simpl. now destruct (array_index (fst p)).
Qed.

Lemma ownProperties_NoDup (l : list (jsstring * A)) :
  NoDup (map fst l) -> NoDup (map fst (ownProperties l)).
Proof.
  apply Permutation_NoDup. apply Permutation_map. symmetry.
  apply ownProperties_perm.
Qed.

End Order.

(** ** The index file *)

Section IndexFile.
Context {host : Host}.

Lemma forSubModel_closed (t : object modelInfo) hasStmt belongsStmt
  (subs : list associatedModel) :
  Forall (fun s => tableHas t (name s) = true) subs ->
  forall acc,
    importStatements (fold_left (forSubModel t hasStmt belongsStmt) subs acc)
    = importStatements acc
    /\ modelNames (fold_left (forSubModel t hasStmt belongsStmt) subs acc)
       = modelNames acc.
Proof.
  induction 1 as [|s subs Hs _ IH]; intros acc; simpl; [now split|].
  destruct (IH (forSubModel t hasStmt belongsStmt acc s)) as [-> ->].
  unfold forSubModel. rewrite Hs. simpl. now split.
Qed.

Lemma forModel_closed (t : object modelInfo)
  (entries : list (jsstring * modelInfo)) :
  Forall (fun e => Forall (fun s => tableHas t (name s) = true)
                     (listed (snd e))) entries ->
  forall acc,
    importStatements (fold_left (forModel t) entries acc)
    = importStatements acc ++ map import_statement (map fst entries)
    /\ modelNames (fold_left (forModel t) entries acc)
       = modelNames acc ++ map fst entries.
Proof.
  induction 1 as [|e entries He _ IH]; intros acc; simpl.
  - now rewrite !app_nil_r.
  - unfold listed in He. apply Forall_app in He as [Hmany Hone].
    destruct (IH (forModel t acc e)) as [-> ->].
    unfold forModel. simpl.
    destruct (forSubModel_closed t (hasOne_statement (fst e))
                (fun subModelName =>
                   belongsTo_one_statement subModelName (fst e))
                _ Hone
                (fold_left
                   (forSubModel t (hasMany_statement (fst e))
                      (fun subModelName =>
                         belongsTo_statement subModelName (fst e)))
                   (one_to_many (associations (snd e)))
                   {| importStatements :=
                        importStatements acc ++ [import_statement (fst e)];
                      modelNames := modelNames acc;
                      relations := relations acc |})) as [-> ->].
    destruct (forSubModel_closed t (hasMany_statement (fst e))
                (fun subModelName => belongsTo_statement subModelName (fst e))
                _ Hmany
                {| importStatements :=
                     importStatements acc ++ [import_statement (fst e)];
                   modelNames := modelNames acc;
                   relations := relations acc |}) as [-> ->].
    simpl. rewrite <- !app_assoc. split; reflexivity.
Qed.

(** The index of a closed table: when every listed association resolves in
    the table, the index imports and names exactly the keys of the table, in
    the order of [Object.keys]. *)
Lemma writeIndexFile_closed (t : object modelInfo) :
  closed_table t ->
  modelNames (writeIndexFile t) = map fst (ownProperties (own t))
  /\ importStatements (writeIndexFile t)
     = map import_statement (map fst (ownProperties (own t))).
Proof.
  intros Hclosed. unfold writeIndexFile.
  destruct (forModel_closed t (ownProperties (own t))) with
    (acc := {| importStatements := []; modelNames := []; relations := [] |})
    as [-> ->]; [|now split].
  apply Forall_forall. intros [k d] Hin. apply Forall_forall. intros s Hs.
  apply (proj1 (ownProperties_In _ _)) in Hin. simpl in Hs.
  exact (Hclosed k d s Hin Hs).
Qed.

Lemma assigned_tableHas (t : object modelInfo) k :
  assigned t k -> tableHas t k = true.
Proof.
  unfold assigned, tableHas. intros [H|[Hset Hp]].
  - destruct (assoc k (own t)); congruence.
  - destruct (assoc k (own t)); [reflexivity|].
    destruct (proto t) as [p|]; [|congruence].
    unfold sets_prototype in Hset. apply andb_true_iff in Hset as [Hk _].
    apply eqb_js_eq in Hk. subst k. reflexivity.
Qed.

Lemma objSet_assigned_same (t : object modelInfo) k a :
  assigned (objSet t k a) k.
Proof.
  unfold assigned, objSet, sets_prototype.
  destruct (assoc k (own t)) eqn:E; simpl.
  - left. rewrite (assoc_set_same _ _ a _ E). discriminate.
  - destruct (eqb_js k proto_key && objectProto k) eqn:Es; simpl.
    + right. split; [reflexivity|discriminate].
    + left. rewrite (assoc_app_absent _ _ a E). discriminate.
Qed.

Lemma objSet_assigned_keeps (t : object modelInfo) k a k' :
  assigned t k' -> assigned (objSet t k a) k'.
Proof.
  intros H. destruct (eqb_js k' k) eqn:Ek.
  - apply eqb_js_eq in Ek. subst k'. apply objSet_assigned_same.
  - apply eqb_js_neq in Ek. destruct H as [H|[Hset Hp]].
    + left. unfold objSet. destruct (assoc k (own t)) eqn:E; simpl.
      * now rewrite assoc_set_other.
      * destruct (eqb_js k proto_key && objectProto k); simpl;
          [assumption|now rewrite assoc_app_other].
    + right. split; [assumption|]. unfold objSet.
      destruct (assoc k (own t)); simpl; [assumption|].
      destruct (eqb_js k proto_key && objectProto k); simpl;
        [discriminate|assumption].
Qed.

Lemma assign_all_assigned (assigns : list (jsstring * modelInfo)) :
  forall (t : object modelInfo) k,
    assigned t k \/ In k (map fst assigns) ->
    assigned (fold_left (fun t a => objSet t (fst a) (snd a)) assigns t) k.
Proof.
  induction assigns as [|a assigns IH]; intros t k; simpl.
  - tauto.
  - intros [H|[<-|H]]; apply IH.
    + left. now apply objSet_assigned_keeps.
    + left. apply objSet_assigned_same.
    + now right.
Qed.

Lemma assign_all_In (assigns : list (jsstring * modelInfo)) :
  forall (t : object modelInfo) p,
    In p (own (fold_left (fun t a => objSet t (fst a) (snd a)) assigns t)) ->
    In p (own t) \/ In p assigns.
Proof.
  induction assigns as [|a assigns IH]; intros t p; simpl; [tauto|].
  intros H. apply IH in H as [H|H]; [|tauto].
  apply objSet_In in H as [H| ->]; [tauto|]. right. left. now destruct a.
Qed.

Lemma assign_all_NoDup (assigns : list (jsstring * modelInfo)) :
  forall t : object modelInfo,
    NoDup (map fst (own t)) ->
    NoDup (map fst (own (fold_left (fun t a => objSet t (fst a) (snd a))
                           assigns t))).
Proof.
  induction assigns as [|a assigns IH]; intros t H; simpl; [assumption|].
  apply IH. now apply objSet_NoDup.
Qed.

End IndexFile.

(** ** A complete run *)

Section CompleteRun.
Context {host : Host}.
Hypothesis toCamelCase_idempotent :
  forall s, toCamelCase (toCamelCase s) = toCamelCase s.

Lemma generateOthers_In
  (job : jsstring -> list value -> outcome job_result) entries infos files
  k m :
  generateOthers job entries = Done (infos, files) ->
  In (k, m) entries ->
  exists a b fs,
    job (toCamelCase k) (examples m) = Done (a, b, fs)
    /\ incl (a :: b) infos /\ incl fs files.
Proof.
  revert infos files. induction entries as [|[k0 m0] entries IH];
    intros infos files; simpl; [tauto|].
  destruct (job (toCamelCase k0) (examples m0)) as [[[a b] fs]|e|] eqn:E;
    try discriminate.
  destruct (generateOthers job entries) as [[infos' files']|e|] eqn:E';
    try discriminate.
  intros [= <- <-] [[= <- <-]|Hin].
  - exists a, b, fs. split; [assumption|]. split.
    + intros x Hx. change (a :: b ++ infos') with ((a :: b) ++ infos').
      apply in_or_app. now left.
    + intros x Hx. apply in_or_app. now left.
  - destruct (IH _ _ eq_refl Hin) as [a' [b' [fs' [Hjob [Hi Hf]]]]].
    exists a', b', fs'. split; [assumption|]. split.
    + intros x Hx. change (a :: b ++ infos') with ((a :: b) ++ infos').
      apply in_or_app. right. now apply Hi.
    + intros x Hx. apply in_or_app. right. now apply Hf.
Qed.

Lemma generateOthers_from
  (job : jsstring -> list value -> outcome job_result) entries infos files d :
  generateOthers job entries = Done (infos, files) ->
  In d infos ->
  exists k m a b fs,
    In (k, m) entries
    /\ job (toCamelCase k) (examples m) = Done (a, b, fs)
    /\ In d (a :: b) /\ incl (a :: b) infos /\ incl fs files.
Proof.
  revert infos files. induction entries as [|[k0 m0] entries IH];
    intros infos files; simpl.
  - intros [= <- _] [].
  - destruct (job (toCamelCase k0) (examples m0)) as [[[a b] fs]|e|] eqn:E;
      try discriminate.
    destruct (generateOthers job entries) as [[infos' files']|e|] eqn:E';
      try discriminate.
    intros [= <- <-] Hin.
    change (a :: b ++ infos') with ((a :: b) ++ infos') in Hin.
    apply in_app_or in Hin as [Hin|Hin].
    + exists k0, m0, a, b, fs. split; [now left|]. split; [assumption|].
      split; [assumption|]. split.
      * intros x Hx. change (a :: b ++ infos') with ((a :: b) ++ infos').
        apply in_or_app. now left.
      * intros x Hx. apply in_or_app. now left.
    + destruct (IH _ _ eq_refl Hin)
        as [k [m [a' [b' [fs' [Hk [Hjob [Hd [Hi Hf]]]]]]]]].
      exists k, m, a', b', fs'. split; [now right|]. split; [assumption|].
      split; [assumption|]. split.
      * intros x Hx. change (a :: b ++ infos') with ((a :: b) ++ infos').
        apply in_or_app. right. now apply Hi.
      * intros x Hx. apply in_or_app. right. now apply Hf.
Qed.

Lemma In_assoc {A} (l : list (jsstring * A)) k a :
  NoDup (map fst l) -> In (k, a) l -> assoc k l = Some a.
Proof.
  induction l as [|[k' a'] l IH]; simpl; [tauto|].
  intros Hnd. inversion Hnd as [|? ? Hx Hl]; subst.
  intros [[= -> ->]|Hp]; [now rewrite eqb_js_refl|].
  destruct (eqb_js k k') eqn:Ek; [|now apply IH].
  apply eqb_js_eq in Ek. subst k'. exfalso. apply Hx.
  apply in_map_iff. now exists (k, a).
Qed.

Lemma associationKeys_canonical (obs : list (jsstring * value)) k :
  In k (associationKeys obs) -> exists key, k = toCamelCase key.
Proof.
  induction obs as [|[key v] obs IH] using rev_ind; [intros []|].
  rewrite associationKeys_snoc. simpl.
  destruct (registers v); [|assumption].
  destruct (existsb _ _); [assumption|].
  intros H. apply in_app_or in H as [H|[<-|[]]]; [now apply IH|].
  now exists key.
Qed.

(** The entries of [associatedModels] are named by their key, which is a
    canonical form. *)
Lemma scanExamples_names (exs : list value) body am k m :
  scanExamples exs = Ok (body, am) -> In (k, m) am ->
  name m = k /\ toCamelCase k = k.
Proof.
  intros Hscan Hin.
  destruct (scanExamples_associations _ _ _ Hscan) as [obs [_ [Hkeys Hall]]].
  assert (Hnd : NoDup (map fst am))
    by (rewrite Hkeys; apply associationKeys_NoDup).
  assert (Hk : In k (associationKeys obs)).
  { rewrite <- Hkeys. apply in_map_iff. now exists (k, m). }
  pose proof (In_assoc _ _ _ Hnd Hin) as Ha. rewrite Hall in Ha.
  destruct (firstRegistration k obs); [|discriminate].
  injection Ha as <-. split; [reflexivity|].
  destruct (associationKeys_canonical _ _ Hk) as [key ->].
  apply toCamelCase_idempotent.
Qed.

(** The shape of what a job returns and writes when canonicalization is
    idempotent. *)
Lemma job_shape (fuel : nat) :
  forall modelName exs first others files,
    generateSequelizeModel fuel modelName exs = Done (first, others, files) ->
    model first = toCamelCase modelName
    /\ (exists body rest,
          files = (modelName, body) :: rest
          /\ forall d, In d others -> exists body', In (model d, body') rest)
    /\ (forall d s, In d (first :: others) -> In s (listed d) ->
          exists d', In d' others /\ model d' = name s).
Proof.
  induction fuel as [|fuel IH]; intros modelName exs first others files;
    [discriminate|].
  rewrite generateSequelizeModel_S.
  destruct (scanExamples exs) as [[body am]|e] eqn:Hscan; [|discriminate].
  destruct (generateOthers (generateSequelizeModel fuel) (ownProperties am))
    as [[infos fs]|e|] eqn:E; try discriminate.
  intros [= <- <- <-]. split; [reflexivity|]. split.
  - exists (stripNested body), fs. split; [reflexivity|].
    intros d Hd.
    destruct (generateOthers_from _ _ _ _ _ E Hd)
      as [k [m [a [b [fs' [Hk [Hjob [Hin [_ Hf]]]]]]]]].
    destruct (IH _ _ _ _ _ Hjob) as [Hmodel [[body' [rest [-> Hrest]]] _]].
    destruct Hin as [<-|Hin].
    + exists body'. apply Hf. left.
      now rewrite Hmodel, toCamelCase_idempotent.
    + destruct (Hrest _ Hin) as [body'' Hb]. exists body''.
      apply Hf. now right.
  - intros d s [<-|Hd] Hs.
    + unfold listed in Hs. simpl in Hs.
      apply in_app_or in Hs.
      assert (Hin : In s (map snd (ownProperties am))).
      { destruct Hs as [Hs|Hs]; now apply filter_In in Hs. }
      apply in_map_iff in Hin as [[k s'] [Hk Hin]]. simpl in Hk. subst s'.
      destruct (generateOthers_In _ _ _ _ _ _ E Hin)
        as [a [b [fs' [Hjob [Hi _]]]]].
      apply (proj1 (ownProperties_In _ _)) in Hin.
      destruct (scanExamples_names _ _ _ _ _ Hscan Hin) as [Hname Hcanon].
      destruct (IH _ _ _ _ _ Hjob) as [Hmodel _].
      exists a. split; [apply Hi; now left|].
      now rewrite Hmodel, toCamelCase_idempotent, Hcanon.
    + destruct (generateOthers_from _ _ _ _ _ E Hd)
        as [k [m [a [b [fs' [Hk [Hjob [Hin [Hi _]]]]]]]]].
      destruct (IH _ _ _ _ _ Hjob) as [_ [_ Hclosed]].
      destruct (Hclosed _ _ Hin Hs) as [d' [Hd' Hm]].
      exists d'. split; [apply Hi; now right|assumption].
Qed.

Lemma createModels_written (fuel : nat)
  (inputs : list (jsstring * list value)) :
  forall r0 r,
    createModels fuel r0 inputs = Done r ->
    written r = written r0 ++ writtenFiles fuel inputs.
Proof.
  induction inputs as [|[modelName exs] inputs IH]; intros r0 r; simpl.
  - intros [= <-]. now rewrite app_nil_r.
  - unfold createModel.
    destruct (generateSequelizeModel fuel modelName exs)
      as [[[mainModel otherModels] files]|e|] eqn:E; simpl;
      try discriminate.
    intros H. apply IH in H. simpl in H. now rewrite H, app_assoc.
Qed.

Lemma createModels_done (fuel : nat)
  (inputs : list (jsstring * list value)) :
  forall r0 r,
    createModels fuel r0 inputs = Done r ->
    forall input, In input inputs ->
      exists first others files,
        generateSequelizeModel fuel (fst input) (snd input)
        = Done (first, others, files).
Proof.
  induction inputs as [|[modelName exs] inputs IH]; intros r0 r; simpl;
    [tauto|].
  unfold createModel.
  destruct (generateSequelizeModel fuel modelName exs)
    as [[[mainModel otherModels] files]|e|] eqn:E; simpl; try discriminate.
  intros H input [<-|Hin]; [simpl; eauto|]. eapply IH; eassumption.
Qed.

(** Where an assignment of the driver comes from. *)
Lemma assignments_from (fuel : nat) (inputs : list (jsstring * list value))
  k d :
  In (k, d) (assignments fuel inputs) ->
  exists input first others files,
    In input inputs
    /\ generateSequelizeModel fuel (fst input) (snd input)
       = Done (first, others, files)
    /\ ((k = fst input /\ d = first) \/ (In d others /\ k = model d)).
Proof.
  unfold assignments. intros H. apply in_flat_map in H as [input [Hin H]].
  destruct (generateSequelizeModel fuel (fst input) (snd input))
    as [[[first others] files]|e|] eqn:E; try destruct H.
  - exists input, first, others, files. split; [assumption|].
    split; [exact E|]. left. injection H as <- <-. now split.
  - exists input, first, others, files. split; [assumption|].
    split; [exact E|]. right.
    apply in_map_iff in H as [m [[= <- <-] Hm]]. now split.
Qed.

Lemma assignments_others (fuel : nat) (inputs : list (jsstring * list value))
  input first others files d :
  In input inputs ->
  generateSequelizeModel fuel (fst input) (snd input)
  = Done (first, others, files) ->
  In d others -> In (model d) (map fst (assignments fuel inputs)).
Proof.
  intros Hin Hjob Hd. apply in_map_iff. exists (model d, d).
  split; [reflexivity|]. unfold assignments. apply in_flat_map.
  exists input. split; [assumption|]. rewrite Hjob. right.
  apply in_map_iff. now exists d.
Qed.

(** The index of a complete run: when canonicalization is idempotent and
    the driver completes, every association listed by a stored description
    resolves in the table, so [writeIndexFile] imports and names exactly the
    keys of the table, each once, in the order of [Object.keys]. *)
Theorem index_imports_each_model_once (fuel : nat)
  (inputs : list (jsstring * list value)) (r : run) :
  createModels fuel start inputs = Done r ->
  closed_table (table r)
  /\ modelNames (writeIndexFile (table r))
     = map fst (ownProperties (own (table r)))
  /\ importStatements (writeIndexFile (table r))
     = map import_statement (modelNames (writeIndexFile (table r)))
  /\ NoDup (modelNames (writeIndexFile (table r))).
Proof.
  intros Hrun.
  pose proof (createModels_spec _ _ _ _ Hrun) as [_ Ht]. simpl in Ht.
  assert (Hclosed : closed_table (table r)).
  { intros k d s Hin Hs. rewrite Ht in Hin.
    apply assign_all_In in Hin as [[]|Hin].
    apply assignments_from in Hin
      as [input [first [others [files [Hi [Hjob Hcase]]]]]].
    assert (Hd : In d (first :: others)).
    { destruct Hcase as [[_ ->]|[Hd _]]; [now left|now right]. }
    destruct (job_shape _ _ _ _ _ _ Hjob) as [_ [_ Hcl]].
    destruct (Hcl _ _ Hd Hs) as [d' [Hd' Hm]].
    apply assigned_tableHas. rewrite Ht. apply assign_all_assigned.
    right. rewrite <- Hm. eapply assignments_others; eassumption. }
  destruct (writeIndexFile_closed _ Hclosed) as [Hnames Himports].
  split; [assumption|]. split; [assumption|]. split.
  - now rewrite Himports, Hnames.
  - rewrite Hnames. apply ownProperties_NoDup. rewrite Ht.
    apply assign_all_NoDup. constructor.
Qed.

(** Files of a complete run: when canonicalization is idempotent and the
    driver completes, every key of the association table, that is every
    module the index file requires, names a model file that was written. *)
Theorem every_stored_model_has_a_file (fuel : nat)
  (inputs : list (jsstring * list value)) (r : run) :
  createModels fuel start inputs = Done r ->
  forall k d, In (k, d) (own (table r)) ->
    exists body, In (k, body) (written r).
Proof.
  intros Hrun k d Hin.
  pose proof (createModels_spec _ _ _ _ Hrun) as [_ Ht]. simpl in Ht.
  rewrite (createModels_written _ _ _ _ Hrun). simpl.
  rewrite Ht in Hin. apply assign_all_In in Hin as [[]|Hin].
  apply assignments_from in Hin
    as [input [first [others [files [Hi [Hjob Hcase]]]]]].
  destruct (job_shape _ _ _ _ _ _ Hjob)
    as [_ [[body [rest [Hfiles Hrest]]] _]].
  assert (Hfile : exists body', In (k, body') files).
  { destruct Hcase as [[-> _]|[Hd ->]].
    - exists body. rewrite Hfiles. now left.
    - destruct (Hrest _ Hd) as [body' Hb]. exists body'.
      rewrite Hfiles. now right. }
  destruct Hfile as [body' Hb]. exists body'.
  unfold writtenFiles. apply in_flat_map. exists input.
  split; [assumption|]. now rewrite Hjob.
Qed.

End CompleteRun.

Lemma sample_toCamelCase_idempotent (s : jsstring) :
  sample_toCamelCase (sample_toCamelCase s) = sample_toCamelCase s.
Proof.
  assert (Hsep : forall c, is_separator (lower c) = is_separator c).
  { intros c. unfold lower.
    destruct ((65 <=? c)%N && (c <=? 90)%N) eqn:E; [|reflexivity].
    apply andb_true_iff in E as [H1 H2]. apply N.leb_le in H1, H2.
    unfold is_separator. simpl.
    repeat match goal with
           | |- context [N.eqb ?x ?n] =>
               replace (N.eqb x n) with false
                 by (symmetry; apply N.eqb_neq; lia)
           end.
    reflexivity. }
  assert (Hup : forall c, is_separator c = false -> is_separator (upper c) = false).
  { intros c Hc. unfold upper.
    destruct ((97 <=? c)%N && (c <=? 122)%N) eqn:E; [|assumption].
    apply andb_true_iff in E as [H1 H2]. apply N.leb_le in H1, H2.
    unfold is_separator. simpl.
    repeat match goal with
           | |- context [N.eqb ?x ?n] =>
               replace (N.eqb x n) with false
                 by (symmetry; apply N.eqb_neq; lia)
           end.
    reflexivity. }
  assert (Hfree : forall t, Forall (fun c => is_separator c = false) t ->
                            camel false t = t).
  { induction 1 as [|c t Hc _ IH]; simpl; [reflexivity|].
    rewrite Hc. now f_equal. }
  assert (Hcamel : forall up t,
             Forall (fun c => is_separator c = false) (camel up t)).
  { intros up t. revert up. induction t as [|c t IH]; intros up; simpl;
      [constructor|].
    destruct (is_separator c) eqn:Ec; [apply IH|].
    constructor; [|apply IH]. destruct up; [now apply Hup|assumption]. }
  unfold sample_toCamelCase.
  pose proof (Hcamel false s) as Hs.
  destruct (camel false s) as [|c t]; [reflexivity|].
  inversion Hs as [|? ? Hc Ht]; subst.
  simpl. rewrite Hsep, Hc, (Hfree _ Ht). f_equal. unfold lower.
  destruct ((65 <=? c)%N && (c <=? 90)%N) eqn:E; [|now rewrite E].
  apply andb_true_iff in E as [H1 H2]. apply N.leb_le in H1, H2.
  replace ((65 <=? c + 32)%N && (c + 32 <=? 90)%N) with false; [reflexivity|].
  symmetry. apply andb_false_iff. right. apply N.leb_gt. lia.
Qed.

Lemma index_imports_each_model_once_witness :
  exists r,
    createModels (host := sampleHost) 3 start colliding_inputs = Done r
    /\ closed_table (host := sampleHost) (table r)
    /\ modelNames (writeIndexFile (host := sampleHost) (table r))
       = map fst (ownProperties (own (table r)))
    /\ importStatements (writeIndexFile (host := sampleHost) (table r))
       = map import_statement
           (modelNames (writeIndexFile (host := sampleHost) (table r)))
    /\ NoDup (modelNames (writeIndexFile (host := sampleHost) (table r))).
Proof.
  eexists. split; [reflexivity|].
  exact (index_imports_each_model_once (host := sampleHost)
           sample_toCamelCase_idempotent 3 colliding_inputs _ eq_refl).
Defined.

Lemma every_stored_model_has_a_file_witness :
  exists r,
    createModels (host := sampleHost) 3 start colliding_inputs = Done r
    /\ forall k d, In (k, d) (own (table r)) ->
         exists body, In (k, body) (written r).
Proof.
  eexists. split; [reflexivity|].
  exact (every_stored_model_has_a_file (host := sampleHost)
           sample_toCamelCase_idempotent 3 colliding_inputs _ eq_refl).
Defined.

(** ** Paths of the input files *)

Lemma split_from_nonempty (sep s cur : jsstring) (skip : nat) :
  split_from sep s cur skip <> [].
Proof.
  revert cur skip. induction s as [|c s IH]; intros cur skip; simpl;
    [discriminate|].
  destruct skip; [|apply IH].
  destruct (starts_with sep (c :: s)); [discriminate|apply IH].
Qed.

Lemma split_from_absent (c : code_unit) (sep' s : jsstring) :
  Forall (fun x => x <> c) s ->
  forall cur, split_from (c :: sep') s cur 0 = [rev cur ++ s].
Proof.
  induction 1 as [|x s Hx _ IH]; intros cur; simpl.
  - now rewrite app_nil_r.
  - replace (N.eqb c x) with false
      by (symmetry; apply N.eqb_neq; congruence).
    simpl. rewrite IH. simpl. now rewrite <- app_assoc.
Qed.

Lemma last_cons {A} (x : A) (l : list A) (d : A) :
  l <> [] -> last (x :: l) d = last l d.
Proof. destruct l; [congruence|reflexivity]. Qed.

Lemma split_from_last (c : code_unit) (seg : jsstring) :
  Forall (fun x => x <> c) seg ->
  forall p cur, last (split_from [c] (p ++ c :: seg) cur 0) [] = seg.
Proof.
  intros Hseg. induction p as [|x p IH]; intros cur.
  - change ([] ++ c :: seg) with (c :: seg).
    cbn [split_from starts_with]. rewrite N.eqb_refl. cbn [andb].
    change (List.length [c] - 1) with 0.
    rewrite (split_from_absent c [] seg Hseg []). reflexivity.
  - change ((x :: p) ++ c :: seg) with (x :: (p ++ c :: seg)).
    cbn [split_from starts_with]. destruct (N.eqb c x); cbn [andb].
    + change (List.length [c] - 1) with 0.
      rewrite last_cons by apply split_from_nonempty. apply IH.
    + apply IH.
Qed.

(** The extension is what follows the last dot, and a path without any dot
    is its own extension. *)
Theorem fileExtension_after_last_dot (path ext : jsstring) :
  no_dot ext ->
  fileExtension (path ++ js "." ++ ext) = ext
  /\ fileExtension ext = ext.
Proof.
  intros Hext. unfold fileExtension, split. split.
  - exact (split_from_last 46%N ext Hext path []).
  - exact (f_equal (fun l => last l [])
             (split_from_absent 46%N [] ext Hext [])).
Qed.

Lemma split_from_json_hd (name rest : jsstring) :
  no_dot name ->
  forall cur,
    hd [] (split_from (js ".json") (name ++ js ".json" ++ rest) cur 0)
    = rev cur ++ name.
Proof.
  induction 1 as [|x name Hx _ IH]; intros cur.
  - simpl. now rewrite app_nil_r.
  - change ((x :: name) ++ js ".json" ++ rest)
      with (x :: (name ++ js ".json" ++ rest)).
    change (js ".json") with (46%N :: js "json") at 1.
    cbn [split_from starts_with].
    replace (N.eqb 46 x) with false
      by (symmetry; apply N.eqb_neq; congruence).
    cbn [andb].
    change (46%N :: js "json") with (js ".json").
    rewrite IH. simpl. now rewrite <- app_assoc.
Qed.

Lemma no_slash_app (s t : jsstring) :
  no_slash s -> no_slash t -> no_slash (s ++ t).
Proof. intros Hs Ht. apply Forall_app. now split. Qed.

Lemma last_segment (dir seg : jsstring) :
  no_slash seg -> last (split (js "/") (dir ++ js "/" ++ seg)) [] = seg.
Proof. intros H. exact (split_from_last 47%N seg H dir []). Qed.

Lemma last_segment_whole (seg : jsstring) :
  no_slash seg -> last (split (js "/") seg) [] = seg.
Proof.
  intros H.
  exact (f_equal (fun l => last l []) (split_from_absent 47%N [] seg H [])).
Qed.

Lemma first_piece (name rest : jsstring) :
  no_dot name ->
  hd [] (split (js ".json") (name ++ js ".json" ++ rest)) = name.
Proof. intros H. exact (split_from_json_hd name rest H []). Qed.

Lemma inferredModelName_of_segment (path seg : jsstring) :
  last (split (js "/") path) [] = seg ->
  inferredModelName path = hd [] (split (js ".json") seg).
Proof. intros H. unfold inferredModelName. now rewrite H. Qed.

(** The inferred model name: for a path whose last segment is a name
    without dots followed by .json (and by anything without a slash), the
    model name is that name, whatever the directories before it. *)
Theorem inferredModelName_strips_json (dir name rest : jsstring) :
  no_dot name -> no_slash name -> no_slash rest ->
  inferredModelName (dir ++ js "/" ++ name ++ js ".json" ++ rest) = name
  /\ inferredModelName (name ++ js ".json" ++ rest) = name.
Proof.
  intros Hdot Hname Hrest.
  assert (Hseg : no_slash (name ++ js ".json" ++ rest)).
  { apply no_slash_app; [assumption|]. apply no_slash_app; [|assumption].
    repeat constructor; discriminate. }
  split.
  - rewrite (inferredModelName_of_segment _ _ (last_segment dir _ Hseg)).
    now apply first_piece.
  - rewrite (inferredModelName_of_segment _ _ (last_segment_whole _ Hseg)).
    now apply first_piece.
Qed.

Lemma split_from_json_absent (name ext : jsstring) :
  no_dot name -> no_dot ext -> starts_with (js "json") ext = false ->
  forall cur,
    split_from (js ".json") (name ++ js "." ++ ext) cur 0
    = [rev cur ++ name ++ js "." ++ ext].
Proof.
  intros Hname Hext Hjson. induction Hname as [|x name Hx _ IH]; intros cur.
  - change ([] ++ js "." ++ ext) with (46%N :: ext).
    change (js ".json") with (46%N :: js "json").
    cbn [split_from starts_with]. rewrite N.eqb_refl, Hjson. cbn [andb].
    etransitivity;
      [exact (split_from_absent 46%N (js "json") ext Hext (46%N :: cur))|].
    simpl. now rewrite <- app_assoc.
  - change ((x :: name) ++ js "." ++ ext)
      with (x :: (name ++ js "." ++ ext)).
    change (js ".json") with (46%N :: js "json") at 1.
    cbn [split_from starts_with].
    replace (N.eqb 46 x) with false
      by (symmetry; apply N.eqb_neq; congruence).
    cbn [andb].
    change (46%N :: js "json") with (js ".json").
    rewrite IH. simpl. now rewrite <- app_assoc.
Qed.

(** Other extensions stay in the name: the separator .json is matched as
    written, so for a last segment name.ext whose extension does not begin
    with json in lower case (JSON in capitals, for one) the inferred model
    name is the whole segment, extension included. *)
Theorem inferredModelName_keeps_other_extension (dir name ext : jsstring) :
  no_dot name -> no_slash name -> no_dot ext -> no_slash ext ->
  starts_with (js "json") ext = false ->
  inferredModelName (dir ++ js "/" ++ name ++ js "." ++ ext)
  = name ++ js "." ++ ext.
Proof.
  intros Hdot Hname Hedot Hext Hjson.
  assert (Hseg : no_slash (name ++ js "." ++ ext)).
  { apply no_slash_app; [assumption|]. apply no_slash_app; [|assumption].
    repeat constructor; discriminate. }
  rewrite (inferredModelName_of_segment _ _ (last_segment dir _ Hseg)).
  exact (f_equal (hd [])
           (split_from_json_absent name ext Hdot Hedot Hjson [])).
Qed.

Lemma fileExtension_after_last_dot_witness :
  fileExtension (js "data/v1.2/user" ++ js "." ++ js "JSON") = js "JSON"
  /\ fileExtension (js "JSON") = js "JSON".
Proof.
  apply (fileExtension_after_last_dot (js "data/v1.2/user") (js "JSON")).
  repeat constructor; discriminate.
Defined.

Lemma inferredModelName_strips_json_witness :
  inferredModelName (js "data/v1.2" ++ js "/" ++ js "user" ++ js ".json" ++ [])
  = js "user"
  /\ inferredModelName (js "user" ++ js ".json" ++ []) = js "user".
Proof.
  apply (inferredModelName_strips_json (js "data/v1.2") (js "user") []).
  - repeat constructor; discriminate.
  - repeat constructor; discriminate.
  - constructor.
Defined.

Lemma inferredModelName_keeps_other_extension_witness :
  inferredModelName (js "data" ++ js "/" ++ js "user" ++ js "." ++ js "JSON")
  = js "user" ++ js "." ++ js "JSON".
Proof.
  apply (inferredModelName_keeps_other_extension (js "data") (js "user")
           (js "JSON")).
  - repeat constructor; discriminate.
  - repeat constructor; discriminate.
  - repeat constructor; discriminate.
  - repeat constructor; discriminate.
  - reflexivity.
Defined.

Lemma inferDataType_total_witness :
  exists tag am',
    inferDataType (host := sampleHost) (VObject [prop "city" (str "X")])
      (js "address") [] = Ok (tag, am').
Proof.
  apply (inferDataType_total (host := sampleHost)
           (VObject [prop "city" (str "X")]) (js "address") []).
  right. split; reflexivity.
Defined.

(** ** What the program enumerates *)

Section Enumeration.
Context {host : Host}.

Lemma insert_by_index_map {A B} (h : jsstring * A -> jsstring * B) n p
  (acc : list (N * (jsstring * A))) :
  insert_by_index n (h p) (map (fun np => (fst np, h (snd np))) acc)
  = map (fun np => (fst np, h (snd np))) (insert_by_index n p acc).
Proof.
  induction acc as [|[m q] acc IH]; simpl; [reflexivity|].
  destruct (n <? m)%N; simpl; [reflexivity|]. now rewrite IH.
Qed.

Lemma index_part_map {A B} (h : jsstring * A -> jsstring * B)
  (l : list (jsstring * A)) :
  (forall p, fst (h p) = fst p) ->
  index_part (map h l) = map (fun np => (fst np, h (snd np))) (index_part l).
Proof.
  intros Hh. unfold index_part.
  assert (G : forall acc,
    fold_left
      (fun acc p => match array_index (fst p) with
                    | Some n => insert_by_index n p acc
                    | None => acc
                    end) (map h l)
      (map (fun np => (fst np, h (snd np))) acc)
    = map (fun np => (fst np, h (snd np)))
        (fold_left
           (fun acc p => match array_index (fst p) with
                         | Some n => insert_by_index n p acc
                         | None => acc
                         end) l acc)).
  { induction l as [|q l IH]; intros acc; simpl; [reflexivity|].
    rewrite Hh. destruct (array_index (fst q)) as [n|]; [|apply IH].
    rewrite insert_by_index_map. apply IH. }
  exact (G []).
Qed.

Lemma string_part_map {A B} (h : jsstring * A -> jsstring * B)
  (l : list (jsstring * A)) :
  (forall p, fst (h p) = fst p) ->
  string_part (map h l) = map h (string_part l).
Proof.
  intros Hh. unfold string_part. induction l as [|q l IH]; simpl;
    [reflexivity|].
  rewrite Hh. destruct (array_index (fst q)); simpl; now rewrite IH.
Qed.

(** The keys [Object.entries] lists depend on the keys alone. *)
Lemma ownProperties_keys {A} (l : list (jsstring * A)) :
  map fst (ownProperties l) = ownKeys (map fst l).
Proof.
  unfold ownKeys. rewrite map_map.
  change (map (fun x : jsstring * A => (fst x, tt)) l)
    with (map (fun p : jsstring * A => (fst p, tt)) l).
  unfold ownProperties.
  rewrite (index_part_map (fun p : jsstring * A => (fst p, tt)) l)
    by reflexivity.
  rewrite (string_part_map (fun p : jsstring * A => (fst p, tt)) l)
    by reflexivity.
  rewrite !map_app, !map_map. reflexivity.
Qed.

Lemma map_fst_filter {A} (g : A -> bool) (l : list (jsstring * A)) :
  NoDup (map fst l) ->
  map fst (filter (fun p => g (snd p)) l)
  = filter (fun k => match assoc k l with
                     | Some a => g a
                     | None => false
                     end) (map fst l).
Proof.
  induction l as [|[k a] l IH]; simpl; [reflexivity|].
  intros Hnd. inversion Hnd as [|? ? Hk Hl]; subst.
  rewrite eqb_js_refl.
  assert (Htail : filter (fun k0 => match (if eqb_js k0 k then Some a
                                           else assoc k0 l) with
                                    | Some a0 => g a0
                                    | None => false
                                    end) (map fst l)
                  = filter (fun k0 => match assoc k0 l with
                                      | Some a0 => g a0
                                      | None => false
                                      end) (map fst l)).
  { apply filter_ext_in. intros k0 Hin.
    destruct (eqb_js k0 k) eqn:E; [|reflexivity].
    apply eqb_js_eq in E. subst k0. contradiction. }
  rewrite Htail. destruct (g a); simpl; now rewrite (IH Hl).
Qed.

(** Association keys as the program enumerates them: when the first loop
    completes, [Object.entries(associatedModels)] lists the canonical keys
    that registered an association, each once: those that are array
    indices first, in ascending order, then the others in the order of
    their first registration. A key none of whose observations registers
    has no entry. *)
Theorem association_keys_as_enumerated (exs : list value)
  (body : object field_desc) (am : list (jsstring * associatedModel)) :
  scanExamples exs = Ok (body, am) ->
  exists obs,
    observations exs = Ok obs
    /\ map fst (ownProperties am) = ownKeys (associationKeys obs)
    /\ NoDup (map fst (ownProperties am))
    /\ forall camelCasedKey,
         assoc camelCasedKey am = None
         <-> firstRegistration camelCasedKey obs = None.
Proof.
  intros Hscan.
  destruct (scanExamples_associations _ _ _ Hscan) as [obs [Hobs [Hkeys Hall]]].
  exists obs. split; [assumption|]. split; [|split].
  - now rewrite ownProperties_keys, Hkeys.
  - apply ownProperties_NoDup. rewrite Hkeys. apply associationKeys_NoDup.
  - intros ck. rewrite Hall.
    destruct (firstRegistration ck obs); simpl; split; congruence.
Qed.

(** Fields as the program enumerates them: when the first loop completes,
    [Object.entries(body)] lists the observed canonical keys (without those
    that go to the [__proto__] setter): those that are array indices first,
    in ascending order, then the others in the order they were first
    observed; the written field map lists, in the same way, those whose
    entry is not typed DataTypes.NESTED. *)
Theorem fields_as_enumerated (exs : list value)
  (body : object field_desc) (am : list (jsstring * associatedModel)) :
  scanExamples exs = Ok (body, am) ->
  exists obs,
    observations exs = Ok obs
    /\ map fst (ownProperties (own body)) = ownKeys (fieldKeys obs)
    /\ map fst (ownProperties (own (stripNested body)))
       = ownKeys
           (filter (fun k => match assoc k (own body) with
                             | Some d => negb (is_nested d)
                             | None => false
                             end) (fieldKeys obs)).
Proof.
  intros Hscan.
  destruct (scanExamples_fields _ _ _ Hscan) as [obs [Hobs [Hkeys _]]].
  simpl in Hkeys. exists obs. split; [assumption|].
  assert (Hnd : NoDup (map fst (own body)))
    by (rewrite Hkeys; apply fieldKeys_NoDup).
  split.
  - now rewrite ownProperties_keys, Hkeys.
  - rewrite ownProperties_keys, (stripNested_filter _ Hnd).
    rewrite (map_fst_filter (fun d => negb (is_nested d)) _ Hnd).
    now rewrite Hkeys.
Qed.

Lemma generateOthers_parts
  (job : jsstring -> list value -> outcome job_result) :
  forall entries infos files,
    generateOthers job entries = Done (infos, files) ->
    exists parts,
      files = List.concat parts
      /\ Forall2
           (fun (entry : jsstring * associatedModel) part =>
              exists a b,
                job (toCamelCase (fst entry)) (examples (snd entry))
                = Done (a, b, part))
           entries parts.
Proof.
  induction entries as [|[key m] entries IH]; simpl.
  - intros infos files [= _ <-]. exists []. split; [reflexivity|constructor].
  - intros infos files.
    destruct (job (toCamelCase key) (examples m)) as [[[a b] fs]|e|] eqn:E;
      try discriminate.
    destruct (generateOthers job entries) as [[infos' files']|e|] eqn:E';
      try discriminate.
    intros [= _ <-]. destruct (IH _ _ eq_refl) as [parts [-> Hparts]].
    exists (fs :: parts). split; [reflexivity|].
    constructor; [|assumption]. simpl. now exists a, b.
Qed.

Lemma job_first_file (fuel : nat) modelName exs first others files :
  generateSequelizeModel fuel modelName exs = Done (first, others, files) ->
  exists body rest, files = (modelName, body) :: rest.
Proof.
  destruct fuel as [|fuel]; [discriminate|].
  rewrite generateSequelizeModel_S.
  destruct (scanExamples exs) as [[body am]|e]; [|discriminate].
  destruct (generateOthers (generateSequelizeModel fuel) (ownProperties am))
    as [[infos fs]|e|]; try discriminate.
  intros [= _ _ <-]. now exists (stripNested body), fs.
Qed.

(** File names follow the association keys: when a job completes, the files
    it wrote are the file of its own model, under the model name it was
    called with and holding the stripped body, followed, for each entry of
    [Object.entries(associatedModels)] in order, by the files of the job
    started for that entry, the first of which is named by [toCamelCase] of
    the key of the entry. *)
Theorem sub_model_files_follow_keys (fuel : nat) (modelName : jsstring)
  (exs : list value) (first : modelInfo) (others : list modelInfo)
  (files : list file) (body : object field_desc)
  (am : list (jsstring * associatedModel)) :
  scanExamples exs = Ok (body, am) ->
  generateSequelizeModel (S fuel) modelName exs
  = Done (first, others, files) ->
  exists parts,
    files = (modelName, stripNested body) :: List.concat parts
    /\ Forall2
         (fun (entry : jsstring * associatedModel) part =>
            exists a b body' rest,
              generateSequelizeModel fuel (toCamelCase (fst entry))
                (examples (snd entry)) = Done (a, b, part)
              /\ part = (toCamelCase (fst entry), body') :: rest)
         (ownProperties am) parts.
Proof.
  intros Hscan. rewrite generateSequelizeModel_S, Hscan.
  destruct (generateOthers (generateSequelizeModel fuel) (ownProperties am))
    as [[infos fs]|e|] eqn:E; try discriminate.
  intros [= _ _ <-].
  destruct (generateOthers_parts _ _ _ _ E) as [parts [-> Hparts]].
  exists parts. split; [reflexivity|].
  eapply Forall2_impl; [|exact Hparts].
  intros [key m] part [a [b Hjob]]. simpl in *.
  destruct (job_first_file _ _ _ _ _ _ Hjob) as [body' [rest ->]].
  now exists a, b, body', rest.
Qed.

End Enumeration.

Lemma association_keys_as_enumerated_witness :
  exists body am,
    scanExamples (host := sampleHost) index_like_keys = Ok (body, am)
    /\ map fst am = [js "b"; js "2"]
    /\ exists obs,
         observations index_like_keys = Ok obs
         /\ map fst (ownProperties am)
            = ownKeys (associationKeys (host := sampleHost) obs)
         /\ NoDup (map fst (ownProperties am))
         /\ forall camelCasedKey,
              assoc camelCasedKey am = None
              <-> firstRegistration (host := sampleHost) camelCasedKey obs
                  = None.
Proof.
  eexists. eexists. split; [reflexivity|]. split; [reflexivity|].
  exact (association_keys_as_enumerated (host := sampleHost) index_like_keys
           _ _ eq_refl).
Defined.

(** In that batch the key b registers first and the key 2 is enumerated
    first. *)
Lemma index_like_keys_enumeration :
  exists body am,
    scanExamples (host := sampleHost) index_like_keys = Ok (body, am)
    /\ map fst (ownProperties am) = [js "2"; js "b"]
    /\ map fst (ownProperties (own (stripNested body)))
       = [js "7"; js "name"].
Proof. eexists. eexists. split; [reflexivity|]. split; reflexivity. Qed.

Lemma fields_as_enumerated_witness :
  exists body am,
    scanExamples (host := sampleHost) index_like_keys = Ok (body, am)
    /\ exists obs,
         observations index_like_keys = Ok obs
         /\ map fst (ownProperties (own body))
            = ownKeys (fieldKeys (host := sampleHost) obs)
         /\ map fst (ownProperties (own (stripNested body)))
            = ownKeys
                (filter (fun k => match assoc k (own body) with
                                  | Some d => negb (is_nested d)
                                  | None => false
                                  end)
                   (fieldKeys (host := sampleHost) obs)).
Proof.
  eexists. eexists. split; [reflexivity|].
  exact (fields_as_enumerated (host := sampleHost) index_like_keys
           _ _ eq_refl).
Defined.

Lemma sub_model_files_follow_keys_witness :
  exists first others files body am,
    scanExamples (host := sampleHost) address_example = Ok (body, am)
    /\ generateSequelizeModel (host := sampleHost) 2 (js "user")
         address_example = Done (first, others, files)
    /\ exists parts,
         files = (js "user", stripNested body) :: List.concat parts
         /\ Forall2
              (fun (entry : jsstring * associatedModel) part =>
                 exists a b body' rest,
                   generateSequelizeModel (host := sampleHost) 1
                     (sample_toCamelCase (fst entry)) (examples (snd entry))
                   = Done (a, b, part)
                   /\ part = (sample_toCamelCase (fst entry), body') :: rest)
              (ownProperties am) parts.
Proof.
  do 5 eexists. split; [reflexivity|]. split; [reflexivity|].
  exact (sub_model_files_follow_keys (host := sampleHost) 1 (js "user")
           address_example _ _ _ _ _ eq_refl eq_refl).
Defined.
